(** * Buddy voice assistant: the interaction pipeline, embedded and verified

    A shallow embedding of the parts of the assistant that sequence one
    voice turn:

    - [assistant/conversation_memory.py]  the SQLite-backed message log,
    - [assistant/llm_router.py]           the ordered chain of chat backends,
    - [assistant/stt.py]                  endpoint detection over audio chunks,
    - [assistant/skill_router.py], [skills/base_skill.py]
                                          keyword and classifier routing,
    - [main.py]                           the processing step of the session.

    Python values are modelled as follows.  Text is a [string]; audio is a
    list of bytes; [None] is [option]'s [None]; a call that may raise has an
    [outcome]; probabilities and confidences are rationals, of which the code
    only ever takes comparisons.  Everything outside the process (the models,
    the network, the clock, the database file) answers through a record of
    observations that a function receives as its first argument. *)

From Stdlib Require Import List String Ascii ZArith QArith Bool Lia.
From Stdlib Require Import Strings.Byte.
From Stdlib Require Import Sorting.Sorted Sorting.Permutation.
Import ListNotations.

Local Open Scope string_scope.
Local Open Scope Z_scope.

(* ================================================================== *)
(** ** Python values *)

Module Py.

(** The exception classes the code distinguishes.  Both derive from
    [Exception], so every [except Exception] clause catches them. *)
Inductive exn : Type :=
| AttributeError
| Exception.

Inductive outcome (A : Type) : Type :=
| Ret (a : A)
| Raise (e : exn).
Arguments Ret {A} a.
Arguments Raise {A} e.

Definition bind {A B} (c : outcome A) (k : A -> outcome B) : outcome B :=
  match c with
  | Ret a => k a
  | Raise e => Raise e
  end.

(** [try: body  except Exception as e: handler e]. *)
Definition try_except {A} (body : outcome A) (handler : exn -> A) : A :=
  match body with
  | Ret a => a
  | Raise e => handler e
  end.

(** Truth value of a [str] and of an [Optional[str]]. *)
Definition truthy (s : string) : bool :=
  match s with
  | EmptyString => false
  | String _ _ => true
  end.

Definition is_upper (c : ascii) : bool :=
  let n := nat_of_ascii c in (Nat.leb 65 n && Nat.leb n 90)%bool.

Definition lower_char (c : ascii) : ascii :=
  if is_upper c then ascii_of_nat (nat_of_ascii c + 32) else c.

(** [str.lower], on the ASCII letters. *)
Fixpoint lower (s : string) : string :=
  match s with
  | EmptyString => EmptyString
  | String c s' => String (lower_char c) (lower s')
  end.

Fixpoint startswith (s p : string) : bool :=
  match p, s with
  | EmptyString, _ => true
  | String _ _, EmptyString => false
  | String a p', String b s' => (Ascii.eqb a b && startswith s' p')%bool
  end.

(** [p in s] for two strings. *)
Fixpoint contains (p s : string) : bool :=
  (startswith s p ||
   match s with
   | EmptyString => false
   | String _ s' => contains p s'
   end)%bool.

(** [s.endswith(suffix)]. *)
Fixpoint endswith (s suffix : string) : bool :=
  (String.eqb s suffix ||
   match s with
   | EmptyString => false
   | String _ s' => endswith s' suffix
   end)%bool.

Definition is_space (c : ascii) : bool :=
  let n := nat_of_ascii c in
  ((Nat.leb 9 n && Nat.leb n 13) || (Nat.leb 28 n && Nat.leb n 32))%bool.

Fixpoint lstrip (s : string) : string :=
  match s with
  | EmptyString => EmptyString
  | String c s' => if is_space c then lstrip s' else s
  end.

Fixpoint rstrip (s : string) : string :=
  match s with
  | EmptyString => EmptyString
  | String c s' =>
      match rstrip s' with
      | EmptyString => if is_space c then EmptyString else String c EmptyString
      | r => String c r
      end
  end.

(** [s.strip()]. *)
Definition strip (s : string) : string := rstrip (lstrip s).

(** [s.replace(c, '')] for a one-character [c]. *)
Fixpoint remove_char (c : ascii) (s : string) : string :=
  match s with
  | EmptyString => EmptyString
  | String a s' =>
      if Ascii.eqb a c then remove_char c s' else String a (remove_char c s')
  end.

(** [s[:n]]. *)
Fixpoint take (n : nat) (s : string) : string :=
  match n, s with
  | O, _ => EmptyString
  | S _, EmptyString => EmptyString
  | S n', String c s' => String c (take n' s')
  end.

(** [sep.join(parts)]. *)
Fixpoint join (sep : string) (parts : list string) : string :=
  match parts with
  | [] => EmptyString
  | [p] => p
  | p :: ps => p ++ sep ++ join sep ps
  end.

(** A chat message, the dict [{"role": ..., "content": ...}]. *)
Record Message : Type := mkMessage {
  role : string;
  content : string
}.

End Py.
Import Py.

Notation "x <- c ;; k" := (Py.bind c (fun x => k))
  (at level 61, c at next level, right associativity).

(* ================================================================== *)
(** ** assistant/conversation_memory.py *)

Module ConversationMemory.

(** One row of the table [messages].  The [timestamp] column holds
    [datetime.now()] as ISO text, whose text order is the order of the
    instants; the model keeps the instant, in microseconds. *)
Record Row : Type := mkRow {
  row_id : Z;
  row_role : string;
  row_content : string;
  row_timestamp : Z;
  row_metadata : option string
}.

(** The object: its retrieval limit and the database file it points at,
    that is the table in insertion order and the AUTOINCREMENT counter. *)
Record t : Type := mk {
  max_messages : Z;
  messages : list Row;
  sqlite_sequence : Z
}.

(** Attributes an instance answers to: the methods of the class and the
    fields [__init__] sets. *)
Definition attributes : list string :=
  [ "__init__"; "_get_connection"; "_init_db"; "add"; "add_exchange";
    "get_recent"; "clear"; "__len__";
    "db_path"; "max_messages"; "_lock" ].

Definition hasattr (name : string) : bool :=
  existsb (String.eqb name) attributes.

(** [add].  [now] is the reading of [datetime.now()]; [db_ok] tells
    whether the INSERT and the commit went through.  A failure is
    printed and swallowed. *)
Definition add (now : Z) (db_ok : bool)
           (role content : string) (metadata : option string) (m : t) : t :=
  try_except
    (if db_ok
     then Ret (mk (max_messages m)
                  (messages m ++
                   [mkRow (sqlite_sequence m + 1) role content now metadata])
                  (sqlite_sequence m + 1))
     else Raise Exception)
    (fun _ => m).

(** [add_exchange]: two [add]s, each with its own clock reading. *)
Definition add_exchange (now_user now_assistant : Z)
           (ok_user ok_assistant : bool)
           (user_msg assistant_msg : string) (m : t) : t :=
  add now_assistant ok_assistant "assistant" assistant_msg None
    (add now_user ok_user "user" user_msg None m).

(** [ORDER BY timestamp ASC].  Rows of equal timestamp come out in an
    order SQL leaves open; the model keeps them in table order. *)
Fixpoint insert_by_timestamp (r : Row) (l : list Row) : list Row :=
  match l with
  | [] => [r]
  | x :: l' =>
      if row_timestamp r <? row_timestamp x
      then r :: x :: l'
      else x :: insert_by_timestamp r l'
  end.

Definition order_by_timestamp_asc (l : list Row) : list Row :=
  fold_left (fun acc r => insert_by_timestamp r acc) l [].

(** [ORDER BY timestamp DESC]. *)
Definition order_by_timestamp_desc (l : list Row) : list Row :=
  rev (order_by_timestamp_asc l).

(** [LIMIT k]: a negative [k] means no limit. *)
Definition limit (k : Z) (l : list Row) : list Row :=
  if k <? 0 then l else firstn (Z.to_nat k) l.

(** [n if n else self.max_messages]. *)
Definition effective_limit (n : option Z) (m : t) : Z :=
  match n with
  | Some k => if k =? 0 then max_messages m else k
  | None => max_messages m
  end.

(** The rows the query of [get_recent] selects, in the order it returns
    them. *)
Definition recent_rows (n : option Z) (m : t) : list Row :=
  order_by_timestamp_asc
    (limit (effective_limit n m) (order_by_timestamp_desc (messages m))).

Definition to_message (r : Row) : Message :=
  mkMessage (row_role r) (row_content r).

(** [get_recent].  [db_ok] tells whether the query went through; a
    failure is printed and the result is the empty list. *)
Definition get_recent (db_ok : bool) (n : option Z) (m : t) : list Message :=
  try_except
    (if db_ok then Ret (map to_message (recent_rows n m))
     else Raise Exception)
    (fun _ => []).

(** [clear]. *)
Definition clear (db_ok : bool) (m : t) : t :=
  try_except
    (if db_ok then Ret (mk (max_messages m) [] (sqlite_sequence m))
     else Raise Exception)
    (fun _ => m).

(** [__len__]: the row count, or 0 when the query fails. *)
Definition __len__ (db_ok : bool) (m : t) : Z :=
  try_except
    (if db_ok then Ret (Z.of_nat (List.length (messages m)))
     else Raise Exception)
    (fun _ => 0).





End ConversationMemory.

(* ================================================================== *)
(** ** assistant/llm_router.py *)

Module LLMRouter.

Inductive Backend : Type :=
| Ollama | LMStudio | Groq | Nvidia | OpenRouter | Gemini.

(** The constants [llm_router.py] imports from [config.py] and
    [personality.py]. *)
Record Config : Type := mkConfig {
  OLLAMA_MODEL : string;
  LMSTUDIO_MODEL : string;
  NVIDIA_MODEL : string;
  OPENROUTER_MODEL : string;
  GEMINI_MODEL : string;
  GROQ_API_KEY : string;
  NVIDIA_API_KEY : string;
  OPENROUTER_API_KEY : string;
  GEMINI_API_KEY : string;
  SYSTEM_PROMPT : string
}.

(** What the outside answers during one call of [chat]. *)
Record World : Type := mkWorld {
  config : Config;
  (** does the constructor of the client return ([true]) or raise *)
  client_init : Backend -> bool;
  (** [ollama.list()], as the name of each listed model (the empty name for none) *)
  ollama_list : outcome (list string);
  (** [models.list().data] of LM Studio, as model ids *)
  lmstudio_models : outcome (list string);
  (** a chat completion: backend, model, messages; the result is the
      [content] field, which may be [None] *)
  completion : Backend -> string -> list Message -> outcome (option string);
  (** [models.generate_content(model, contents).text] *)
  generate_content : string -> string -> outcome (option string);
  (** the text an f-string makes of a value returned by a memory method *)
  rendered : string -> string;
  (** does the history query issued for this backend go through *)
  db_read_ok : Backend -> bool;
  (** the two INSERTs of [add_exchange] and their clock readings *)
  db_write_user_ok : bool;
  db_write_assistant_ok : bool;
  now_user : Z;
  now_assistant : Z
}.

(** The router object.  A client field is [true] once it holds a client. *)
Record t : Type := mk {
  prefer_local : bool;
  max_history : Z;
  memory : ConversationMemory.t;
  _ollama_available : option bool;
  _ollama_model_name : string;
  _gemini_client : bool;
  _groq_client : bool;
  _openrouter_client : bool;
  _nvidia_client : bool;
  _lmstudio_client : bool;
  _lmstudio_available : option bool
}.

Definition set_ollama (avail : option bool) (name : string) (r : t) : t :=
  mk (prefer_local r) (max_history r) (memory r) avail name
     (_gemini_client r) (_groq_client r) (_openrouter_client r)
     (_nvidia_client r) (_lmstudio_client r) (_lmstudio_available r).

Definition set_lmstudio (client : bool) (avail : option bool) (r : t) : t :=
  mk (prefer_local r) (max_history r) (memory r)
     (_ollama_available r) (_ollama_model_name r)
     (_gemini_client r) (_groq_client r) (_openrouter_client r)
     (_nvidia_client r) client avail.

Definition set_clients (gemini groq openrouter nvidia : bool) (r : t) : t :=
  mk (prefer_local r) (max_history r) (memory r)
     (_ollama_available r) (_ollama_model_name r)
     gemini groq openrouter nvidia
     (_lmstudio_client r) (_lmstudio_available r).

Definition set_memory (m : ConversationMemory.t) (r : t) : t :=
  mk (prefer_local r) (max_history r) m
     (_ollama_available r) (_ollama_model_name r)
     (_gemini_client r) (_groq_client r) (_openrouter_client r)
     (_nvidia_client r) (_lmstudio_client r) (_lmstudio_available r).

Definition fallbacks : list string :=
  ["phi3"; "mistral"; "llama3"; "gemma"; "qwen"; "tinyllama"].

(** [next((m for m in available_models if key in m), None)]. *)
Definition first_containing (key : string) (models : list string)
  : option string :=
  find (fun m => contains key m) models.

(** The [for fallback in fallbacks] loop: the first fallback some model
    name contains, with that model. *)
Fixpoint first_fallback (fs : list string) (models : list string)
  : option string :=
  match fs with
  | [] => None
  | f :: fs' =>
      match first_containing f models with
      | Some m => if truthy m then Some m else first_fallback fs' models
      | None => first_fallback fs' models
      end
  end.

(** [_check_ollama]: the cached answer, or a probe that also settles the
    model name. *)
Definition _check_ollama (W : World) (r : t) : bool * t :=
  match _ollama_available r with
  | Some b => (b, r)
  | None =>
      try_except
        (names <- ollama_list W ;;
         let available_models := filter truthy names in
         match first_containing (_ollama_model_name r) available_models with
         | Some m => Ret (true, set_ollama (Some true) m r)
         | None =>
             match first_fallback fallbacks available_models with
             | Some m => Ret (true, set_ollama (Some true) m r)
             | None =>
                 match available_models with
                 | m :: _ => Ret (true, set_ollama (Some true) m r)
                 | [] =>
                     Ret (false,
                          set_ollama (Some false) (_ollama_model_name r) r)
                 end
             end
         end)
        (fun _ => (false, set_ollama (Some false) (_ollama_model_name r) r))
  end.

(** [_check_lmstudio].  The client is assigned before the models are
    listed, so it stays in place when the listing raises. *)
Definition _check_lmstudio (W : World) (r : t) : bool * t :=
  match _lmstudio_available r with
  | Some b => (b, r)
  | None =>
      if client_init W LMStudio
      then
        try_except
          (models <- lmstudio_models W ;;
           match models with
           | _ :: _ => Ret (true, set_lmstudio true (Some true) r)
           | [] => Ret (false, set_lmstudio true (Some false) r)
           end)
          (fun _ => (false, set_lmstudio true (Some false) r))
      else (false, set_lmstudio (_lmstudio_client r) (Some false) r)
  end.

(** One [if not client and KEY: try: client = ... except: print]. *)
Definition lazy_client (W : World) (b : Backend) (client : bool)
           (key : string) : bool :=
  if (negb client && truthy key)%bool
  then try_except (if client_init W b then Ret true else Raise Exception)
                  (fun _ => client)
  else client.

(** [_configure_online]. *)
Definition _configure_online (W : World) (r : t) : t :=
  let groq := lazy_client W Groq (_groq_client r) (GROQ_API_KEY (config W)) in
  let nvidia :=
    lazy_client W Nvidia (_nvidia_client r) (NVIDIA_API_KEY (config W)) in
  let openrouter :=
    lazy_client W OpenRouter (_openrouter_client r)
                (OPENROUTER_API_KEY (config W)) in
  let gemini :=
    lazy_client W Gemini (_gemini_client r) (GEMINI_API_KEY (config W)) in
  set_clients gemini groq openrouter nvidia r.

(** [_build_messages], with the history query issued on behalf of [b]. *)
Definition _build_messages (W : World) (b : Backend) (r : t)
           (user_message : string) : list Message :=
  [mkMessage "system" (SYSTEM_PROMPT (config W))]
    ++ ConversationMemory.get_recent (db_read_ok W b)
         (Some (max_history r)) (memory r)
    ++ [mkMessage "user" user_message].

Definition _chat_ollama (W : World) (r : t) (user_message : string)
  : option string * t :=
  try_except
    (let messages := _build_messages W Ollama r user_message in
     c <- completion W Ollama (_ollama_model_name r) messages ;;
     Ret (c, r))
    (fun _ => (None, set_ollama (Some false) (_ollama_model_name r) r)).

Definition _chat_lmstudio (W : World) (r : t) (user_message : string)
  : option string * t :=
  if negb (_lmstudio_client r) then (None, r)
  else
    try_except
      (let messages := _build_messages W LMStudio r user_message in
       c <- completion W LMStudio (LMSTUDIO_MODEL (config W)) messages ;;
       Ret (c, r))
      (fun _ =>
         (None, set_lmstudio (_lmstudio_client r) (Some false) r)).

Definition _chat_groq (W : World) (r : t) (user_message : string)
  : option string :=
  if negb (_groq_client r) then None
  else
    try_except
      (let messages := _build_messages W Groq r user_message in
       completion W Groq "llama-3.1-8b-instant" messages)
      (fun _ => None).

Definition _chat_nvidia (W : World) (r : t) (user_message : string)
  : option string :=
  if negb (_nvidia_client r) then None
  else
    try_except
      (let messages := _build_messages W Nvidia r user_message in
       completion W Nvidia (NVIDIA_MODEL (config W)) messages)
      (fun _ => None).

Definition _chat_openrouter (W : World) (r : t) (user_message : string)
  : option string :=
  if negb (_openrouter_client r) then None
  else
    try_except
      (let messages := _build_messages W OpenRouter r user_message in
       completion W OpenRouter (OPENROUTER_MODEL (config W)) messages)
      (fun _ => None).

Definition nl : string := String (ascii_of_nat 10) EmptyString.

(** [self.memory.get_summary_context()]: the attribute lookup on the
    memory object, then the call. *)
Definition memory_get_summary_context (W : World) (r : t) : outcome string :=
  if ConversationMemory.hasattr "get_summary_context"
  then Ret (rendered W "get_summary_context")
  else Raise AttributeError.

Definition _chat_gemini (W : World) (r : t) (user_message : string)
  : option string :=
  if negb (_gemini_client r) then None
  else
    try_except
      (history_text <- memory_get_summary_context W r ;;
       let full_prompt :=
         SYSTEM_PROMPT (config W) ++ nl ++ nl ++ "Previous conversation:"
           ++ nl ++ history_text ++ nl ++ nl ++ "User: " ++ user_message
           ++ nl ++ "Assistant:" in
       generate_content W (GEMINI_MODEL (config W)) full_prompt)
      (fun _ => None).

Definition apology : string :=
  "All my brain connections are down. Please check your internet and API keys.".

(** [x if response is None] guards of [chat]: run [step] only when no
    earlier backend has produced a response. *)
Definition if_none {S} (acc : option string * S)
           (step : S -> option string * S) : option string * S :=
  match fst acc with
  | None => step (snd acc)
  | Some _ => acc
  end.

(** Step 1 of [chat]:
    [if self.prefer_local and self._check_ollama():
       response = self._chat_ollama(user_message)]. *)
Definition step_ollama (W : World) (r : t) (user_message : string)
  : option string * t :=
  if prefer_local r
  then let '(avail, r1) := _check_ollama W r in
       if avail then _chat_ollama W r1 user_message else (None, r1)
  else (None, r).

(** Step 2 of [chat], once [response is None] has been seen:
    [if self.prefer_local and self._check_lmstudio():
       response = self._chat_lmstudio(user_message)]. *)
Definition step_lmstudio (W : World) (r : t) (user_message : string)
  : option string * t :=
  if prefer_local r
  then let '(avail, r1) := _check_lmstudio W r in
       if avail then _chat_lmstudio W r1 user_message else (None, r1)
  else (None, r).

(** [chat]. *)
Definition chat (W : World) (r : t) (user_message : string)
  : outcome (string * t) :=
  let r := _configure_online W r in
  let acc := step_ollama W r user_message in
  let acc := if_none acc (fun r => step_lmstudio W r user_message) in
  let acc := if_none acc (fun r => (_chat_groq W r user_message, r)) in
  let acc := if_none acc (fun r => (_chat_nvidia W r user_message, r)) in
  let acc := if_none acc (fun r => (_chat_openrouter W r user_message, r)) in
  let acc := if_none acc (fun r => (_chat_gemini W r user_message, r)) in
  match acc with
  | (None, r) => Ret (apology, r)
  | (Some response, r) =>
      Ret (response,
           set_memory
             (ConversationMemory.add_exchange
                (now_user W) (now_assistant W)
                (db_write_user_ok W) (db_write_assistant_ok W)
                user_message response (memory r))
             r)
  end.

(** [clear_history]. *)
Definition clear_history (db_ok : bool) (r : t) : t :=
  set_memory (ConversationMemory.clear db_ok (memory r)) r.

End LLMRouter.

(* ================================================================== *)
(** ** assistant/stt.py: endpoint detection *)

Module SpeechToText.

(** Constants of [config.py]. *)
Definition SAMPLE_RATE : Z := 16000.
Definition VAD_THRESHOLD : Q := 5 # 10.
Definition SILENCE_DURATION_MS : Z := 700.
Definition MIN_SPEECH_DURATION_MS : Z := 250.

Definition samples_per_chunk : Z := 512.

(** [int(MS * SAMPLE_RATE / 1000 / samples_per_chunk)]: the two float
    divisions are exact up to the last, which [int] truncates. *)
Definition silence_threshold : Z :=
  Z.quot (SILENCE_DURATION_MS * SAMPLE_RATE) (1000 * samples_per_chunk).
Definition min_speech_threshold : Z :=
  Z.quot (MIN_SPEECH_DURATION_MS * SAMPLE_RATE) (1000 * samples_per_chunk).

(** One turn of the [while] loop as the outside answers it:
    [get_audio_chunk] times out, or hands over a chunk to which the
    voice-activity model then gives a speech probability. *)
Inductive Poll : Type :=
| NoChunk
| Chunk (data : list byte) (speech_prob : Q).

(** The locals of [listen_with_vad] and the buffer of the object. *)
Record Locals : Type := mkLocals {
  _audio_buffer : list (list byte);
  silence_samples : Z;
  speech_samples : Z;
  has_speech : bool
}.

Definition initial : Locals := mkLocals [] 0 0 false.

(** [a > b] on probabilities. *)
Definition Qgt_bool (a b : Q) : bool := negb (Qle_bool a b).

(** The body of the loop; the flag tells whether it ended in [break]. *)
Definition body (st : Locals) (p : Poll) : Locals * bool :=
  match p with
  | NoChunk => (st, false)
  | Chunk chunk speech_prob =>
      let buffer := (_audio_buffer st ++ [chunk])%list in
      if Qgt_bool speech_prob VAD_THRESHOLD
      then
        let speech := speech_samples st + 1 in
        (mkLocals buffer 0 speech
                  (if speech >=? min_speech_threshold then true
                   else has_speech st),
         false)
      else
        if has_speech st
        then
          let silence := silence_samples st + 1 in
          (mkLocals buffer silence (speech_samples st) true,
           silence >=? silence_threshold)
        else
          (mkLocals buffer (silence_samples st) (speech_samples st) false,
           false)
  end.

(** The [while] loop over the polls that fit before [max_duration] runs
    out.  It returns the locals at exit and the polls it never made. *)
Fixpoint loop (st : Locals) (polls : list Poll) : Locals * list Poll :=
  match polls with
  | [] => (st, [])
  | p :: rest =>
      let '(st', broke) := body st p in
      if broke then (st', rest) else loop st' rest
  end.

(** [listen_with_vad]. *)
Definition listen_with_vad (polls : list Poll) : option (list byte) :=
  let st := fst (loop initial polls) in
  if negb (has_speech st) then None
  else Some (List.concat (_audio_buffer st)).

End SpeechToText.

(* ================================================================== *)
(** ** assistant/skill_response.py, skills/base_skill.py,
       assistant/skill_router.py *)

Module SkillRouter.

Record SkillResponse : Type := mkSkillResponse {
  text : string;
  continue_listening : bool;
  timeout : Q
}.

(** What a handler hands back besides [None]. *)
Inductive Response : Type :=
| Plain (s : string)
| Structured (r : SkillResponse).

(** The [context] dict of [route]. *)
Record Context : Type := mkContext {
  confidence : Q
}.

(** A loaded skill instance.  Classes deriving from [BaseSkill] inherit
    [matches] and a default [description]; the classes the loader takes
    by their name alone have neither unless they set it. *)
Record Skill : Type := mkSkill {
  description : option string;
  keywords : list string;
  inherits_BaseSkill : bool;
  handle : string -> Context -> outcome (option Response)
}.

(** [self.skills]: a dict, in insertion order. *)
Definition Skills : Type := list (string * Skill).

Fixpoint lookup (name : string) (skills : Skills) : option Skill :=
  match skills with
  | [] => None
  | (k, s) :: rest => if String.eqb k name then Some s else lookup name rest
  end.

(** [BaseSkill.matches]. *)
Definition BaseSkill_matches (s : Skill) (text : string) : bool :=
  let text_lower := lower text in
  existsb (fun kw => contains (lower kw) text_lower) (keywords s).

(** [skill.matches(text)] on a loaded instance. *)
Definition matches (s : Skill) (text : string) : outcome bool :=
  if inherits_BaseSkill s then Ret (BaseSkill_matches s text)
  else Raise AttributeError.

(** [_keyword_match]. *)
Fixpoint _keyword_match (skills : Skills) (text : string)
  : outcome (option (string * Skill)) :=
  match skills with
  | [] => Ret None
  | (name, skill) :: rest =>
      m <- matches skill text ;;
      if m then Ret (Some (name, skill)) else _keyword_match rest text
  end.

(** What the outside answers during one call of [route]: the reply of
    [ollama.chat] for a model and a prompt. *)
Record World : Type := mkWorld {
  classifier_chat : string -> string -> outcome string
}.

Definition _classifier_model : string := "gemma:2b".

Definition dquote : string := String (ascii_of_nat 34) EmptyString.
Definition nl : string := String (ascii_of_nat 10) EmptyString.

(** [f"{name}: {skill.description}"] for each item of the dict. *)
Fixpoint skill_lines (skills : Skills) : outcome (list string) :=
  match skills with
  | [] => Ret []
  | (name, skill) :: rest =>
      match description skill with
      | None => Raise AttributeError
      | Some d =>
          ls <- skill_lines rest ;;
          Ret ((name ++ ": " ++ d) :: ls)
      end
  end.

Definition prompt (skill_list text : string) : string :=
  "Classify this user request into one of these skills, or respond "
    ++ dquote ++ "general" ++ dquote ++ " if none match." ++ nl
    ++ "Skills: " ++ skill_list ++ nl ++ nl
    ++ "User: " ++ dquote ++ text ++ dquote ++ nl
    ++ "Respond with ONLY the skill name or " ++ dquote ++ "general"
    ++ dquote ++ ". Nothing else.".

(** [_llm_classify]. *)
Definition _llm_classify (W : World) (skills : Skills) (text : string)
  : outcome (option string) :=
  match skills with
  | [] => Ret None
  | _ :: _ =>
      ls <- skill_lines skills ;;
      let skill_list := join ", " ls in
      Ret (try_except
             (reply <- classifier_chat W _classifier_model
                         (prompt skill_list text) ;;
              let result := lower (strip reply) in
              let result :=
                strip (remove_char (ascii_of_nat 39)
                         (remove_char (ascii_of_nat 34) result)) in
              if String.eqb result "general" then Ret None
              else
                match lookup result skills with
                | Some _ => Ret (Some result)
                | None => Ret None
                end)
             (fun _ => None))
  end.

(** What [route] does that an observer can tell apart: it asks the
    classifier, it invokes the handler of the skill of a given name. *)
Inductive Event : Type :=
| Classify
| Handle (name : string).

(** [try: return await skill.handle(text, context)
     except Exception: return None]. *)
Definition guarded_handle (skill : Skill) (text : string) (ctx : Context)
  : option Response :=
  try_except (handle skill text ctx) (fun _ => None).

(** [route].  The second component lists, in order, what was invoked. *)
Definition route (W : World) (skills : Skills) (text : string)
           (ctx : Context) : outcome (option Response) * list Event :=
  match _keyword_match skills text with
  | Raise e => (Raise e, [])
  | Ret (Some (name, matched_skill)) =>
      (Ret (guarded_handle matched_skill text ctx), [Handle name])
  | Ret None =>
      match _llm_classify W skills text with
      | Raise e => (Raise e, [Classify])
      | Ret None => (Ret None, [Classify])
      | Ret (Some classified_skill) =>
          match truthy classified_skill, lookup classified_skill skills with
          | true, Some skill =>
              (Ret (guarded_handle skill text ctx),
               [Classify; Handle classified_skill])
          | _, _ => (Ret None, [Classify])
          end
      end
  end.

(** [SkillResponse.__str__]. *)
Definition __str__ (r : SkillResponse) : string := text r.

(** [SkillResponse.simple]. *)
Definition simple (text : string) : SkillResponse :=
  mkSkillResponse text false 10.

(** [SkillResponse.with_followup]. *)
Definition with_followup (text : string) (timeout : Q) : SkillResponse :=
  mkSkillResponse text true timeout.


End SkillRouter.

(* ================================================================== *)
(** ** main.py: the session *)

Module VoiceAssistant.

Inductive AssistantState : Type :=
| IDLE | WAKE | LISTENING | PROCESSING | SPEAKING.

(** [state.name]. *)
Definition state_name (s : AssistantState) : string :=
  match s with
  | IDLE => "IDLE"
  | WAKE => "WAKE"
  | LISTENING => "LISTENING"
  | PROCESSING => "PROCESSING"
  | SPEAKING => "SPEAKING"
  end.

Definition FOLLOWUP_PHRASES : list string :=
  [ "what would you like"; "what should i"; "would you like me to";
    "anything else"; "what else"; "tell me more";
    "which one"; "please specify"; "can you clarify" ].

(** The assistant object: the fields a turn reads or writes. *)
Record t : Type := mk {
  state : AssistantState;
  _wake_triggered : bool;
  ui_callback : bool;
  llm : LLMRouter.t;
  skills : SkillRouter.Skills
}.

Definition set_state (s : AssistantState) (va : t) : t :=
  mk s (_wake_triggered va) (ui_callback va) (llm va) (skills va).

Definition set_wake_triggered (b : bool) (va : t) : t :=
  mk (state va) b (ui_callback va) (llm va) (skills va).

Definition set_llm (r : LLMRouter.t) (va : t) : t :=
  mk (state va) (_wake_triggered va) (ui_callback va) r (skills va).

(** What the outside answers during one iteration of [run]. *)
Record World : Type := mkWorld {
  (** [audio.get_audio_chunk()] in the idle state *)
  audio_chunk : option (list byte);
  (** [wake_detector.process_audio(chunk)] *)
  process_audio : list byte -> outcome bool;
  (** playing the acknowledgment sound *)
  play_ding : outcome unit;
  (** the polls [listen_with_vad] makes before its deadline *)
  polls : list SpeechToText.Poll;
  (** [stt.transcribe(audio_bytes)] *)
  transcribe : list byte -> outcome (string * Q);
  router_world : SkillRouter.World;
  llm_world : LLMRouter.World;
  (** [tts.speak_streaming(final_text)], run to completion *)
  speak_streaming : string -> outcome unit
}.

(** What a turn does that an observer can tell apart. *)
Inductive Event : Type :=
| Transition (from to : AssistantState)
| Ui (name : string) (text : option string)
| Transcribe
| Route (text : string) (ctx : SkillRouter.Context)
| Skill (e : SkillRouter.Event)
| Chat (user_message : string)
| Speak (text : string)
| Crash (e : exn).

(** Methods of the assistant: they read and write the object, may raise,
    and leave a trace. *)
Definition M (A : Type) : Type := t -> outcome A * t * list Event.

Definition ret {A} (a : A) : M A := fun va => (Ret a, va, []).

Definition bindM {A B} (c : M A) (k : A -> M B) : M B :=
  fun va =>
    match c va with
    | (Ret a, va1, tr1) =>
        let '(res, va2, tr2) := k a va1 in (res, va2, (tr1 ++ tr2)%list)
    | (Raise e, va1, tr1) => (Raise e, va1, tr1)
    end.

Definition emit (e : Event) : M unit := fun va => (Ret tt, va, [e]).

Definition lift {A} (o : outcome A) : M A := fun va => (o, va, []).

Definition get : M t := fun va => (Ret va, va, []).

Definition put (va : t) : M unit := fun _ => (Ret tt, va, []).

Notation "x <~ c ;; k" := (bindM c (fun x => k))
  (at level 61, c at next level, right associativity).
Notation "c ;;; k" := (bindM c (fun _ => k))
  (at level 61, right associativity).

(** [if self.ui_callback: self.ui_callback(name, text=text)]. *)
Definition notify_ui (name : string) (text : option string) : M unit :=
  va <~ get ;;
  if ui_callback va then emit (Ui name text) else ret tt.

(** [_transition]. *)
Definition _transition (new_state : AssistantState) : M unit :=
  va <~ get ;;
  emit (Transition (state va) new_state) ;;;
  put (set_state new_state va) ;;;
  notify_ui (state_name new_state) None.

(** [_should_continue_listening]. *)
Definition _should_continue_listening (text : string) : bool :=
  if endswith text "?" then true
  else existsb (fun p => contains p (lower text)) FOLLOWUP_PHRASES.

(** [not response_text] for what [route] returned. *)
Definition falsy (r : option SkillRouter.Response) : bool :=
  match r with
  | None => true
  | Some (SkillRouter.Plain s) => negb (truthy s)
  | Some (SkillRouter.Structured _) => false
  end.

(** Lines 151-166 of [main.py]: ask the skill router, then the language
    model when the router has nothing. *)
Definition respond (W : World) (text : string) (confidence : Q)
  : M SkillRouter.Response :=
  va <~ get ;;
  let ctx := SkillRouter.mkContext confidence in
  emit (Route text ctx) ;;;
  let '(res, evs) :=
    SkillRouter.route (router_world W) (skills va) text ctx in
  (fun va => (Ret tt, va, map Skill evs)) ;;;
  response_text <~ lift res ;;
  if falsy response_text
  then
    emit (Chat text) ;;;
    reply <~ lift (LLMRouter.chat (llm_world W) (llm va) text) ;;
    put (set_llm (snd reply) va) ;;;
    ret (SkillRouter.Plain (fst reply))
  else
    match response_text with
    | Some r => ret r
    | None => ret (SkillRouter.Plain EmptyString)
    end.

(** [str(response_text)], replaced by [.text] for a [SkillResponse]. *)
Definition final_text (r : SkillRouter.Response) : string :=
  match r with
  | SkillRouter.Plain s => s
  | SkillRouter.Structured sr => SkillRouter.text sr
  end.

(** [should_continue] before the heuristics. *)
Definition requested_continuation (r : SkillRouter.Response) : bool :=
  match r with
  | SkillRouter.Plain _ => false
  | SkillRouter.Structured sr => SkillRouter.continue_listening sr
  end.

Definition Qlt_bool (a b : Q) : bool := negb (Qle_bool b a).

(** [_process_speech]. *)
Definition _process_speech (W : World) (audio_bytes : list byte) : M unit :=
  emit Transcribe ;;;
  tc <~ lift (transcribe W audio_bytes) ;;
  let '(text, confidence) := tc in
  if (negb (truthy text) || Qlt_bool confidence (4 # 10))%bool
  then _transition IDLE
  else
    notify_ui "PROCESSING"
      (Some ("Processing: " ++ take 30 text ++ "...")) ;;;
    response_text <~ respond W text confidence ;;
    let final_text := final_text response_text in
    let should_continue := requested_continuation response_text in
    let should_continue :=
      if negb should_continue then _should_continue_listening final_text
      else should_continue in
    _transition SPEAKING ;;;
    notify_ui "SPEAKING" (Some (take 50 final_text ++ "...")) ;;;
    emit (Speak final_text) ;;;
    lift (speak_streaming W final_text) ;;;
    if should_continue then _transition LISTENING else _transition IDLE.

(** Truth value of [bytes] and of [Optional[bytes]]. *)
Definition nonempty (b : option (list byte)) : option (list byte) :=
  match b with
  | Some (x :: l) => Some (x :: l)
  | _ => None
  end.

(** [_process_state]. *)
Definition _process_state (W : World) : M unit :=
  va <~ get ;;
  match state va with
  | IDLE =>
      match nonempty (audio_chunk W) with
      | Some chunk =>
          detected <~ lift (process_audio W chunk) ;;
          if (detected || _wake_triggered va)%bool
          then put (set_wake_triggered false va) ;;; _transition WAKE
          else ret tt
      | None => ret tt
      end
  | WAKE =>
      lift (play_ding W) ;;;
      _transition LISTENING
  | LISTENING =>
      match nonempty (SpeechToText.listen_with_vad (polls W)) with
      | Some audio_bytes =>
          _transition PROCESSING ;;;
          _process_speech W audio_bytes
      | None => _transition IDLE
      end
  | PROCESSING | SPEAKING => ret tt
  end.

(** One iteration of the loop of [run]: the step, and the recovery when
    it raises. *)
Definition run_iteration (W : World) : M unit :=
  fun va =>
    match _process_state W va with
    | (Ret tt, va1, tr) => (Ret tt, va1, tr)
    | (Raise e, va1, tr) =>
        let '(res, va2, tr2) := (emit (Crash e) ;;; _transition IDLE) va1 in
        (res, va2, (tr ++ tr2)%list)
    end.


End VoiceAssistant.

(* ================================================================== *)
(** ** assistant/health_monitor.py *)

Module HealthMonitor.

(** The monitor object; [last_heartbeat] is a reading of [time.time()]. *)
Record t : Type := mk {
  check_interval : Z;
  timeout : Z;
  last_heartbeat : Q;
  running : bool;
  _crash_count : Z
}.

(** [HealthMonitor()], constructed when the clock reads [now]. *)
Definition init (now : Q) : t := mk 5 30 now false 0.

(** [start]. *)
Definition start (now : Q) (m : t) : t :=
  mk (check_interval m) (timeout m) now true (_crash_count m).

(** [heartbeat]. *)
Definition heartbeat (now : Q) (m : t) : t :=
  mk (check_interval m) (timeout m) now (running m) (_crash_count m).

(** [stop]. *)
Definition stop (m : t) : t :=
  mk (check_interval m) (timeout m) (last_heartbeat m) false (_crash_count m).

(** One check of [_monitor_loop] when the clock reads [now]: does it log
    the warning. *)
Definition warns (now : Q) (m : t) : bool :=
  negb (Qle_bool (now - last_heartbeat m) (inject_Z (timeout m))).

(** [log_crash]: the monitor afterwards, and whether the call slept for
    the five seconds of the backoff. *)
Definition log_crash (m : t) : t * bool :=
  let count := _crash_count m + 1 in
  (mk (check_interval m) (timeout m) (last_heartbeat m) (running m) count,
   5 <? count).

(** [n] crashes logged in a row: the monitor afterwards and, in order,
    whether each call slept. *)
Fixpoint log_crashes (n : nat) (m : t) : t * list bool :=
  match n with
  | O => (m, [])
  | S n' =>
      let '(m1, slept) := log_crash m in
      let '(m2, rest) := log_crashes n' m1 in
      (m2, slept :: rest)
  end.

End HealthMonitor.

(* ================================================================== *)
(** ** assistant/audio_manager.py *)

Module AudioManager.

(** The manager object: the queue (oldest chunk first), the recording
    flag, and whether an input stream is open. *)
Record t : Type := mk {
  audio_queue : list (list byte);
  is_recording : bool;
  _stream : bool
}.

Definition init : t := mk [] false false.

(** [_audio_callback], given the int16 bytes of the block's first
    channel. *)
Definition _audio_callback (pcm : list byte) (a : t) : t :=
  if is_recording a
  then mk (audio_queue a ++ [pcm]) true (_stream a)
  else a.

(** [start_recording]. *)
Definition start_recording (a : t) : t := mk [] true (_stream a).

(** [stop_recording]. *)
Definition stop_recording (a : t) : t :=
  mk (audio_queue a) false (_stream a).

(** [get_audio_chunk] when nothing arrives while it waits: the head of
    the queue, or [None] once the timeout has passed. *)
Definition get_audio_chunk (a : t) : option (list byte) * t :=
  match audio_queue a with
  | [] => (None, a)
  | chunk :: rest => (Some chunk, mk rest (is_recording a) (_stream a))
  end.

(** [start_stream]; [opened] tells whether the device could be opened. *)
Definition start_stream (opened : bool) (a : t) : outcome t :=
  if _stream a then Ret a
  else if opened then Ret (mk (audio_queue a) (is_recording a) true)
       else Raise Exception.

(** [stop_stream]. *)
Definition stop_stream (a : t) : t :=
  if _stream a then mk (audio_queue a) (is_recording a) false else a.

(** Blocks delivered by the device, one after the other. *)
Definition callbacks (blocks : list (list byte)) (a : t) : t :=
  fold_left (fun a pcm => _audio_callback pcm a) blocks a.

(** [n] calls of [get_audio_chunk] in a row, with what each returned. *)
Fixpoint drain (n : nat) (a : t) : list (option (list byte)) * t :=
  match n with
  | O => ([], a)
  | S n' =>
      let '(c, a1) := get_audio_chunk a in
      let '(cs, a2) := drain n' a1 in
      (c :: cs, a2)
  end.

End AudioManager.

(* ================================================================== *)
(** ** main.py: the loop of [run] *)

Module Run.

Import VoiceAssistant.

(** The session with its health monitor. *)
Record t : Type := mk {
  assistant : VoiceAssistant.t;
  monitor : HealthMonitor.t
}.

(** What the outside answers during one iteration: the clock at the
    heartbeat, and the rest. *)
Record Tick : Type := mkTick {
  now : Q;
  world : World
}.

(** One iteration of [while self._running]: heartbeat, the step, and on
    an exception [log_crash] and the transition to IDLE.  The flag tells
    whether the iteration crashed. *)
Definition iteration (k : Tick) (s : t) : t * list Event * bool :=
  let mon := HealthMonitor.heartbeat (now k) (monitor s) in
  match _process_state (world k) (assistant s) with
  | (Ret _, va, tr) => (mk va mon, tr, false)
  | (Raise e, va, tr) =>
      let mon := fst (HealthMonitor.log_crash mon) in
      let '(_, va, tr2) := _transition IDLE va in
      (mk va mon, (tr ++ Crash e :: tr2)%list, true)
  end.

(** The iterations [run] makes until it is shut down. *)
Fixpoint iterations (ks : list Tick) (s : t) : t * list Event :=
  match ks with
  | [] => (s, [])
  | k :: rest =>
      let '(s1, tr, _) := iteration k s in
      let '(s2, tr2) := iterations rest s1 in
      (s2, (tr ++ tr2)%list)
  end.

(** How many of the iterations crashed. *)
Fixpoint crashes (ks : list Tick) (s : t) : Z :=
  match ks with
  | [] => 0
  | k :: rest =>
      let '(s1, _, crashed) := iteration k s in
      (if crashed then 1 else 0) + crashes rest s1
  end.

(** [run] sets the state to IDLE before it enters the loop. *)
Definition run (ks : list Tick) (s : t) : t * list Event :=
  iterations ks (mk (set_state IDLE (assistant s)) (monitor s)).

End Run.

(* ================================================================== *)
(** ** Vocabulary of the properties *)

Module Props.

Import SpeechToText.

(** The chunks a list of polls delivered, in order. *)
Fixpoint chunks_of (polls : list Poll) : list (list byte) :=
  match polls with
  | [] => []
  | NoChunk :: rest => chunks_of rest
  | Chunk data _ :: rest => data :: chunks_of rest
  end.

(** How many of the delivered chunks were classified as speech. *)
Fixpoint speech_chunks (polls : list Poll) : Z :=
  match polls with
  | [] => 0
  | NoChunk :: rest => speech_chunks rest
  | Chunk _ p :: rest =>
      (if Qgt_bool p VAD_THRESHOLD then 1 else 0) + speech_chunks rest
  end.

(** A counter of consecutive speech chunks that every silence chunk
    resets: [run] is its value so far, [best] the largest it has had. *)
Fixpoint consecutive_speech (run best : Z) (polls : list Poll) : Z :=
  match polls with
  | [] => best
  | NoChunk :: rest => consecutive_speech run best rest
  | Chunk _ p :: rest =>
      if Qgt_bool p VAD_THRESHOLD
      then consecutive_speech (run + 1) (Z.max best (run + 1)) rest
      else consecutive_speech 0 best rest
  end.

(** The longest run of consecutive speech-classified chunks. *)
Definition longest_speech_run (polls : list Poll) : Z :=
  consecutive_speech 0 0 polls.

(** What every turn of the loop keeps true of the locals, [seen] being the
    polls made so far. *)
Definition loop_invariant (st : Locals) (seen : list Poll) : Prop :=
  speech_samples st = speech_chunks seen
  /\ _audio_buffer st = chunks_of seen
  /\ (has_speech st = true <-> min_speech_threshold <= speech_samples st).

(** [msg] is the newest entry of [msgs]. *)
Definition newest_is (msgs : list Message) (msg : Message) : Prop :=
  exists older, msgs = (older ++ [msg])%list.

Definition by_timestamp (a b : ConversationMemory.Row) : Prop :=
  ConversationMemory.row_timestamp a <= ConversationMemory.row_timestamp b.



Import LLMRouter.

(** The fixed priority order of [chat]. *)
Definition chain : list Backend :=
  [Ollama; LMStudio; Groq; Nvidia; OpenRouter; Gemini].

(** What backend [b] answers when [chat W r user_message] gets to ask
    it; [None] is a failure. *)
Definition attempt (W : World) (r : t) (user_message : string)
           (b : Backend) : option string :=
  let rc := _configure_online W r in
  match b with
  | Ollama => fst (step_ollama W rc user_message)
  | LMStudio => fst (step_lmstudio W rc user_message)
  | Groq => _chat_groq W rc user_message
  | Nvidia => _chat_nvidia W rc user_message
  | OpenRouter => _chat_openrouter W rc user_message
  | Gemini => _chat_gemini W rc user_message
  end.

(** The first answer along the chain. *)
Fixpoint first_answer (answers : Backend -> option string)
         (bs : list Backend) : option string :=
  match bs with
  | [] => None
  | b :: rest =>
      match answers b with
      | Some s => Some s
      | None => first_answer answers rest
      end
  end.

Definition is_handle (e : SkillRouter.Event) : bool :=
  match e with
  | SkillRouter.Handle _ => true
  | SkillRouter.Classify => false
  end.



(** The classification of each delivered chunk, [true] for speech. *)
Fixpoint classes (polls : list SpeechToText.Poll) : list bool :=
  match polls with
  | [] => []
  | SpeechToText.NoChunk :: rest => classes rest
  | SpeechToText.Chunk _ p :: rest =>
      SpeechToText.Qgt_bool p SpeechToText.VAD_THRESHOLD :: classes rest
  end.

Fixpoint leading_silence (cs : list bool) : Z :=
  match cs with
  | false :: rest => 1 + leading_silence rest
  | _ => 0
  end.

(** How many silence chunks in a row the polls end with. *)
Definition trailing_silence (polls : list SpeechToText.Poll) : Z :=
  leading_silence (rev (classes polls)).

(** What the loop keeps true of the silence counter. *)
Definition silence_invariant (st : SpeechToText.Locals)
           (seen : list SpeechToText.Poll) : Prop :=
  (SpeechToText.has_speech st = true ->
   SpeechToText.silence_samples st = trailing_silence seen)
  /\ (SpeechToText.has_speech st = false ->
      SpeechToText.silence_samples st = 0).

(** The states in which [_process_state] has something to do. *)
Definition resting (s : VoiceAssistant.AssistantState) : Prop :=
  s = VoiceAssistant.IDLE \/ s = VoiceAssistant.WAKE
  \/ s = VoiceAssistant.LISTENING.


End Props.

(* ================================================================== *)
(** ** Worked inputs *)

Module Examples.

Import SpeechToText.

Definition speech : Poll := Chunk [x01; x00] (9 # 10).
Definition silence : Poll := Chunk [x00; x00] (1 # 10).

(** Seven speech chunks, no two of them adjacent. *)
Definition sporadic : list Poll :=
  [speech; silence; speech; silence; speech; silence; speech;
   silence; speech; silence; speech; silence; speech].

(** Speech, then silence until the detector stops, then a chunk that is
    never read. *)
Definition spoken : list Poll :=
  repeat speech 7 ++ [NoChunk] ++ repeat silence 21.
Definition spoken_then_more : list Poll := spoken ++ [speech].

Definition cfg : LLMRouter.Config :=
  LLMRouter.mkConfig "llama3.2" "falcon-h1r-7b" "meta/llama-3.1-70b-instruct"
    "google/gemini-2.0-flash-exp:free" "gemini-2.0-flash"
    "gsk" EmptyString EmptyString EmptyString "You are Buddy.".

(** A world where only Groq is configured and its completion has the
    given content. *)
Definition groq_world (reply : outcome (option string)) : LLMRouter.World :=
  LLMRouter.mkWorld cfg (fun _ => true)
    (Raise Exception) (Raise Exception)
    (fun b _ _ =>
       match b with
       | LLMRouter.Groq => reply
       | _ => Raise Exception
       end)
    (fun _ _ => Raise Exception)
    (fun name => name)
    (fun _ => true) true true 1000 1001.

(** A world where only the local Ollama server answers, listing the given
    model names. *)
Definition ollama_world (names : list string) : LLMRouter.World :=
  LLMRouter.mkWorld cfg (fun _ => true)
    (Ret names) (Raise Exception)
    (fun _ _ _ => Raise Exception)
    (fun _ _ => Raise Exception)
    (fun name => name)
    (fun _ => true) true true 1000 1001.

Definition empty_memory : ConversationMemory.t :=
  ConversationMemory.mk 20 [] 0.

(** A freshly constructed router, as [LLMRouter()] makes it. *)
Definition fresh_router : LLMRouter.t :=
  LLMRouter.mk true 10 empty_memory None "llama3.2"
    false false false false false None.

(** A store holding one message written when the clock read 10. *)
Definition one_message : ConversationMemory.t :=
  ConversationMemory.mk 20
    [ConversationMemory.mkRow 1 "user" "earlier" 10 None] 1.

Import SkillRouter.

(** A skill asking back, without requesting continuation. *)
Definition music : Skill :=
  mkSkill (Some "Plays music") ["play"; "song"] true
    (fun _ _ =>
       Ret (Some (Structured (mkSkillResponse "Which song?" false 10)))).

(** A skill whose handler raises. *)
Definition broken : Skill :=
  mkSkill (Some "Tells the time") ["time"] true
    (fun _ _ => Raise Exception).

(** [ReminderSkill] as the loader finds it: keywords set by [__init__], no
    description, and no [matches], since the class does not derive from
    [BaseSkill]. *)
Definition reminder : Skill :=
  mkSkill None ["remind"; "alarm"; "timer"; "alert"] false
    (fun _ _ => Ret (Some (Plain "OK, I have set a reminder."))).


(** A skill that asks for more and requests continuation. *)
Definition quiz : Skill :=
  mkSkill (Some "Asks quiz questions") ["quiz"] true
    (fun _ _ => Ret (Some (Structured (with_followup "Ready when you are." 10)))).

Definition no_classifier : World :=
  mkWorld (fun _ _ => Raise Exception).

Definition turn_world (text : string) (conf : Q) : VoiceAssistant.World :=
  VoiceAssistant.mkWorld None (fun _ => Ret false) (Ret tt) []
    (fun _ => Ret (text, conf)) no_classifier
    (groq_world (Ret (Some "Sure thing!")))
    (fun _ => Ret tt).

Definition assistant (skills : Skills) : VoiceAssistant.t :=
  VoiceAssistant.mk VoiceAssistant.PROCESSING false true fresh_router skills.

End Examples.

(* ================================================================== *)
(** ** Text *)




(* ================================================================== *)
(** ** The conversation store *)

Local Open Scope list_scope.

Section Store.

Import ConversationMemory Props.

Lemma insert_by_timestamp_sorted r l :
  StronglySorted by_timestamp l ->
  StronglySorted by_timestamp (insert_by_timestamp r l).
Proof.
  induction 1 as [|x l Hs IH Hx]; simpl.
  - constructor; constructor.
  - destruct (row_timestamp r <? row_timestamp x) eqn:E.
    + apply Z.ltb_lt in E. constructor.
      * now constructor.
      * constructor; [unfold by_timestamp; lia|].
        rewrite Forall_forall in *. intros y Hy.
        specialize (Hx y Hy). unfold by_timestamp in *. lia.
    + apply Z.ltb_ge in E. constructor; [exact IH|].
      rewrite Forall_forall in *. intros y Hy.
      assert (In y (r :: l)) as [<- | Hin].
      { clear - Hy. induction l as [|z l IHl]; simpl in *.
        - destruct Hy as [<- | []]. now left.
        - destruct (row_timestamp r <? row_timestamp z); simpl in Hy.
          + destruct Hy as [<- | [<- | Hy]]; auto.
          + destruct Hy as [<- | Hy]; auto.
            destruct (IHl Hy) as [<- | H]; auto. }
      * exact E.
      * now apply Hx.
Qed.

Lemma fold_insert_sorted l acc :
  StronglySorted by_timestamp acc ->
  StronglySorted by_timestamp
    (fold_left (fun acc r => insert_by_timestamp r acc) l acc).
Proof.
  revert acc; induction l as [|r l IH]; intros acc H; simpl; [exact H|].
  apply IH. now apply insert_by_timestamp_sorted.
Qed.

Lemma order_by_timestamp_asc_sorted l :
  StronglySorted by_timestamp (order_by_timestamp_asc l).
Proof. apply fold_insert_sorted. constructor. Qed.

Lemma insert_by_timestamp_perm r l :
  Permutation (r :: l) (insert_by_timestamp r l).
Proof.
  induction l as [|x l IH]; simpl; [reflexivity|].
  destruct (row_timestamp r <? row_timestamp x); [reflexivity|].
  rewrite perm_swap. now constructor.
Qed.

Lemma fold_insert_perm l acc :
  Permutation (l ++ acc)
    (fold_left (fun acc r => insert_by_timestamp r acc) l acc).
Proof.
  revert acc; induction l as [|r l IH]; intros acc; simpl; [reflexivity|].
  rewrite <- IH, <- insert_by_timestamp_perm.
  now rewrite Permutation_middle.
Qed.

Lemma order_by_timestamp_asc_perm l :
  Permutation l (order_by_timestamp_asc l).
Proof.
  unfold order_by_timestamp_asc. rewrite <- fold_insert_perm.
  now rewrite app_nil_r.
Qed.

(** A row later than a whole list is inserted at its end. *)
Lemma insert_latest r l :
  Forall (fun x => row_timestamp x <= row_timestamp r) l ->
  insert_by_timestamp r l = l ++ [r].
Proof.
  induction 1 as [|x l Hx _ IH]; simpl; [reflexivity|].
  destruct (row_timestamp r <? row_timestamp x) eqn:E.
  - apply Z.ltb_lt in E. lia.
  - now rewrite IH.
Qed.

(** An earlier row is inserted before the latest one. *)
Lemma insert_before_latest x acc r :
  row_timestamp x < row_timestamp r ->
  insert_by_timestamp x (acc ++ [r]) = insert_by_timestamp x acc ++ [r].
Proof.
  intros Hx. induction acc as [|y acc IH]; simpl.
  - apply Z.ltb_lt in Hx. now rewrite Hx.
  - destruct (row_timestamp x <? row_timestamp y); [reflexivity|].
    now rewrite IH.
Qed.

Lemma fold_insert_latest l acc r :
  Forall (fun x => row_timestamp x < row_timestamp r) l ->
  fold_left (fun acc x => insert_by_timestamp x acc) l (acc ++ [r])
  = fold_left (fun acc x => insert_by_timestamp x acc) l acc ++ [r].
Proof.
  intros H; revert acc; induction H as [|x l Hx _ IH]; intros acc; simpl.
  - reflexivity.
  - rewrite insert_before_latest by exact Hx. apply IH.
Qed.

Lemma order_asc_latest_first r l :
  Forall (fun x => row_timestamp x < row_timestamp r) l ->
  order_by_timestamp_asc (r :: l) = order_by_timestamp_asc l ++ [r].
Proof.
  intros H. unfold order_by_timestamp_asc. simpl.
  exact (fold_insert_latest l [] r H).
Qed.

Lemma order_asc_latest_last r l :
  Forall (fun x => row_timestamp x < row_timestamp r) l ->
  order_by_timestamp_asc (l ++ [r]) = order_by_timestamp_asc l ++ [r].
Proof.
  intros H. unfold order_by_timestamp_asc.
  rewrite fold_left_app. simpl. apply insert_latest.
  rewrite Forall_forall in *. intros x Hx.
  apply Permutation_in with (l' := l) in Hx.
  - specialize (H x Hx). lia.
  - symmetry. apply order_by_timestamp_asc_perm.
Qed.

Lemma limit_keeps_head k r l :
  k <> 0 -> exists l', limit k (r :: l) = r :: l' /\ incl l' l.
Proof.
  intros Hk. unfold limit. destruct (k <? 0) eqn:E.
  - exists l. split; [reflexivity | apply incl_refl].
  - apply Z.ltb_ge in E.
    destruct (Z.to_nat k) as [|n] eqn:En; [lia|].
    exists (firstn n l). split; [reflexivity|].
    intros x Hx. rewrite <- (firstn_skipn n l). apply in_or_app. now left.
Qed.

End Store.

Section StoreClaims.

Import ConversationMemory Props Examples.

(** C7 (as amended).  When the INSERT and the query go through, the clock
    reading taken by [add] is later than the timestamp of every stored
    row, and the effective limit is not zero, [get_recent] after
    [add role content] selects rows in non-decreasing timestamp order, the
    last of them is the row just added, and the newest message returned
    carries exactly the role and content that were stored. *)
Theorem get_recent_after_add
        (m : t) (now : Z) (role content : string)
        (metadata : option string) (n : option Z) :
  Forall (fun r => row_timestamp r < now) (messages m) ->
  effective_limit n m <> 0 ->
  exists older,
    recent_rows n (add now true role content metadata m)
    = older ++ [mkRow (sqlite_sequence m + 1) role content now metadata]
    /\ StronglySorted by_timestamp
         (recent_rows n (add now true role content metadata m))
    /\ get_recent true n (add now true role content metadata m)
       = map to_message older ++ [mkMessage role content].
Proof.
  intros Hlater Hlimit.
  set (added := mkRow (sqlite_sequence m + 1) role content now metadata).
  assert (Hrows : exists older,
             recent_rows n (add now true role content metadata m)
             = older ++ [added]).
  { unfold recent_rows, add, try_except; simpl.
    replace (effective_limit n _) with (effective_limit n m)
      by (destruct n; reflexivity).
    unfold order_by_timestamp_desc.
    rewrite (order_asc_latest_last added) by exact Hlater.
    rewrite rev_app_distr; simpl.
    destruct (limit_keeps_head (effective_limit n m) added
                (rev (order_by_timestamp_asc (messages m))) Hlimit)
      as [l' [-> Hincl]].
    exists (order_by_timestamp_asc l'). apply order_asc_latest_first.
    rewrite Forall_forall in *. intros x Hx. apply Hlater.
    apply Hincl, in_rev in Hx.
    eapply Permutation_in; [symmetry; apply order_by_timestamp_asc_perm|].
    exact Hx. }
  destruct Hrows as [older Hrows]. exists older. split; [exact Hrows|].
  split.
  - apply order_by_timestamp_asc_sorted.
  - unfold get_recent, try_except. rewrite Hrows, map_app. reflexivity.
Qed.

Lemma get_recent_after_add_witness :
  exists older,
    recent_rows (Some 1) (add 15 true "user" "later" None one_message)
    = older ++ [mkRow 2 "user" "later" 15 None]
    /\ StronglySorted by_timestamp
         (recent_rows (Some 1) (add 15 true "user" "later" None one_message))
    /\ get_recent true (Some 1) (add 15 true "user" "later" None one_message)
       = map to_message older ++ [mkMessage "user" "later"].
Proof.
  apply (get_recent_after_add one_message 15 "user" "later" None (Some 1)).
  - repeat constructor.
  - discriminate.
Defined.

(** C7 (as stated) fails.  The store holds a row stamped 10; [add] runs
    when the local clock reads 5, after it was set back.  [get_recent(1)]
    then returns the old message, not the one just added. *)
Lemma get_recent_misses_added_after_clock_set_back :
  get_recent true (Some 1) (add 5 true "user" "later" None one_message)
  = [mkMessage "user" "earlier"]
  /\ ~ newest_is
       (get_recent true (Some 1) (add 5 true "user" "later" None one_message))
       (mkMessage "user" "later").
Proof.
  split; [reflexivity|].
  intros [older H]. vm_compute in H.
  destruct older as [|x [|y older]]; discriminate.
Qed.

End StoreClaims.

(* ================================================================== *)
(** ** The chain of chat backends *)

Section Chain.

Import LLMRouter Props Examples.

(** C3.  Whatever the memory holds and whatever the user says, the Gemini
    step returns [None]: without a client it returns at once, and with
    one the lookup of [get_summary_context] on the memory object raises
    [AttributeError], which the [except] clause turns into [None]. *)
Theorem chat_gemini_always_fails
        (W : World) (r : t) (user_message : string) :
  _chat_gemini W r user_message = None.
Proof.
  unfold _chat_gemini, memory_get_summary_context.
  destruct (_gemini_client r); reflexivity.
Qed.

Lemma get_summary_context_missing :
  ConversationMemory.hasattr "get_summary_context" = false.
Proof. reflexivity. Qed.

Lemma step_ollama_state (W : World) (r : t) (msg : string) :
  exists a n, snd (step_ollama W r msg) = set_ollama a n r.
Proof.
  destruct r as [pl mh mem oa on gc qc oc nc lc la].
  unfold step_ollama, _check_ollama, _chat_ollama, try_except, bind, set_ollama.
  cbn [prefer_local _ollama_available _ollama_model_name].
  destruct pl; [|eexists _, _; reflexivity].
  destruct oa as [[|]|].
  - destruct (completion W Ollama _ _); eexists _, _; reflexivity.
  - eexists _, _; reflexivity.
  - destruct (ollama_list W) as [names|e]; [|eexists _, _; reflexivity].
    destruct (first_containing on (filter truthy names)).
    { cbn. destruct (completion W Ollama _ _); eexists _, _; reflexivity. }
    destruct (first_fallback fallbacks (filter truthy names)).
    { cbn. destruct (completion W Ollama _ _); eexists _, _; reflexivity. }
    destruct (filter truthy names).
    + eexists _, _; reflexivity.
    + cbn. destruct (completion W Ollama _ _); eexists _, _; reflexivity.
Qed.

Lemma step_lmstudio_after_ollama (W : World) (r : t) (msg : string) a n :
  step_lmstudio W (set_ollama a n r) msg
  = (fst (step_lmstudio W r msg), set_ollama a n (snd (step_lmstudio W r msg))).
Proof.
  destruct r as [pl mh mem oa on gc qc oc nc lc la].
  unfold step_lmstudio, _check_lmstudio, _chat_lmstudio, _build_messages,
    try_except, bind, set_ollama, set_lmstudio.
  cbn [prefer_local _lmstudio_available _lmstudio_client memory max_history].
  destruct pl; [|reflexivity].
  destruct la as [[|]|].
  - cbn. destruct lc; cbn; [|reflexivity].
    destruct (completion W LMStudio _ _); reflexivity.
  - reflexivity.
  - destruct (client_init W LMStudio); [|reflexivity].
    destruct (lmstudio_models W) as [[|x l]|e]; try reflexivity.
    cbn. destruct (completion W LMStudio _ _); reflexivity.
Qed.

Lemma step_lmstudio_state (W : World) (r : t) (msg : string) :
  exists c l, snd (step_lmstudio W r msg) = set_lmstudio c l r.
Proof.
  destruct r as [pl mh mem oa on gc qc oc nc lc la].
  unfold step_lmstudio, _check_lmstudio, _chat_lmstudio,
    try_except, bind, set_lmstudio.
  cbn [prefer_local _lmstudio_available _lmstudio_client].
  destruct pl; [|eexists _, _; reflexivity].
  destruct la as [[|]|].
  - cbn. destruct lc; cbn; [|eexists _, _; reflexivity].
    destruct (completion W LMStudio _ _); eexists _, _; reflexivity.
  - eexists _, _; reflexivity.
  - destruct (client_init W LMStudio); [|eexists _, _; reflexivity].
    destruct (lmstudio_models W) as [[|x l]|e]; try (eexists _, _; reflexivity).
    cbn. destruct (completion W LMStudio _ _); eexists _, _; reflexivity.
Qed.









End Chain.

(* ================================================================== *)
(** ** Endpoint detection *)

Section Endpoint.

Import SpeechToText Props Examples.

Lemma speech_chunks_app a b :
  speech_chunks (a ++ b) = speech_chunks a + speech_chunks b.
Proof.
  induction a as [|[|d q] a IH]; simpl; [reflexivity | exact IH | lia].
Qed.

Lemma chunks_of_app a b : chunks_of (a ++ b) = chunks_of a ++ chunks_of b.
Proof.
  induction a as [|[|d q] a IH]; simpl; [reflexivity | exact IH | now rewrite IH].
Qed.

Lemma body_invariant st seen p :
  loop_invariant st seen ->
  loop_invariant (fst (body st p)) (seen ++ [p])
  /\ (snd (body st p) = true ->
      silence_threshold <= silence_samples (fst (body st p))).
Proof.
  intros (Hcount & Hbuf & Hspeech). unfold loop_invariant.
  rewrite speech_chunks_app, chunks_of_app.
  destruct p as [|d q]; simpl.
  - rewrite Z.add_0_r, app_nil_r. repeat split; try tauto; discriminate.
  - destruct (Qgt_bool q VAD_THRESHOLD); simpl.
    + repeat split; try discriminate; try (now rewrite Hbuf); try lia.
      * destruct (speech_samples st + 1 >=? min_speech_threshold) eqn:E.
        -- intros _. lia.
        -- intros H. apply Hspeech in H. lia.
      * destruct (speech_samples st + 1 >=? min_speech_threshold) eqn:E.
        -- reflexivity.
        -- lia.
    + destruct (has_speech st) eqn:Hs; simpl.
      * repeat split; try (now rewrite Hbuf); try lia; try tauto.
      * repeat split; try (now rewrite Hbuf); try lia; try tauto;
          discriminate.
Qed.

Lemma loop_keeps_invariant polls :
  forall st seen,
    loop_invariant st seen ->
    exists window,
      polls = window ++ snd (loop st polls)
      /\ loop_invariant (fst (loop st polls)) (seen ++ window)
      /\ (snd (loop st polls) = []
          \/ silence_threshold <= silence_samples (fst (loop st polls))).
Proof.
  induction polls as [|p rest IH]; intros st seen Hinv.
  - exists []. simpl. rewrite app_nil_r. auto.
  - simpl. destruct (body_invariant st seen p Hinv) as [Hinv' Hbroke].
    destruct (body st p) as [st' broke]. simpl in Hinv', Hbroke.
    destruct broke.
    + exists [p]. simpl. auto.
    + destruct (IH st' (seen ++ [p]) Hinv') as (window & Hsplit & Hw & Hend).
      exists (p :: window). simpl. rewrite <- Hsplit.
      rewrite <- app_assoc in Hw. auto.
Qed.

Lemma initial_invariant : loop_invariant initial [].
Proof.
  unfold loop_invariant; simpl. repeat split; try discriminate.
  unfold min_speech_threshold; simpl. intros H. exfalso. revert H.
  vm_compute. intros H. now apply H.
Qed.

(** C2 (as amended).  [listen_with_vad] confirms speech exactly when the
    number of speech-classified chunks it has read, adjacent or not, reaches
    the minimum-speech threshold: the speech counter holds the count of all
    speech chunks of the listening window and no silence chunk resets it. *)
Theorem speech_confirmed_by_total_count (polls : list Poll) :
  exists window,
    polls = window ++ snd (loop initial polls)
    /\ speech_samples (fst (loop initial polls)) = speech_chunks window
    /\ (listen_with_vad polls <> None <->
        min_speech_threshold <= speech_chunks window).
Proof.
  destruct (loop_keeps_invariant polls initial [] initial_invariant)
    as (window & Hsplit & (Hcount & _ & Hspeech) & _).
  exists window. simpl in Hcount. repeat split; try assumption.
  - unfold listen_with_vad.
    destruct (has_speech (fst (loop initial polls))); simpl.
    + intros _. rewrite <- Hcount. now apply Hspeech.
    + intros H. now contradiction H.
  - intros H. rewrite <- Hcount in H. apply Hspeech in H.
    unfold listen_with_vad. rewrite H. discriminate.
Qed.

(** C2 (as stated) fails.  Seven speech chunks, each followed by a silence
    chunk, confirm speech although no two speech chunks are consecutive and
    the threshold is seven. *)
Lemma sporadic_noise_confirms_speech :
  listen_with_vad sporadic <> None
  /\ longest_speech_run sporadic = 1
  /\ min_speech_threshold = 7
  /\ ~ (listen_with_vad sporadic <> None ->
        min_speech_threshold <= longest_speech_run sporadic).
Proof.
  repeat split; try discriminate.
  intros H. assert (Hs : listen_with_vad sporadic <> None) by discriminate.
  apply H in Hs. vm_compute in Hs. now apply Hs.
Qed.

(** C10.  When [listen_with_vad] confirms speech, the audio it returns is
    the concatenation of every chunk it received, from the first poll of the
    listening window to the last, whatever each chunk was classified as.
    The window ends with the polls (when the deadline passes) or at the
    silence chunk that completes the silence threshold. *)
Theorem utterance_keeps_every_chunk
        (polls : list Poll) (audio : list byte) :
  listen_with_vad polls = Some audio ->
  exists window,
    polls = window ++ snd (loop initial polls)
    /\ audio = List.concat (chunks_of window)
    /\ (snd (loop initial polls) = []
        \/ silence_threshold <= silence_samples (fst (loop initial polls))).
Proof.
  intros H.
  destruct (loop_keeps_invariant polls initial [] initial_invariant)
    as (window & Hsplit & (_ & Hbuf & _) & Hend).
  exists window. simpl in Hbuf. repeat split; try assumption.
  unfold listen_with_vad in H.
  destruct (has_speech (fst (loop initial polls))); simpl in H;
    [|discriminate].
  injection H as <-. now rewrite Hbuf.
Qed.

Lemma utterance_keeps_every_chunk_witness :
  exists window,
    spoken_then_more = window ++ snd (loop initial spoken_then_more)
    /\ List.concat (chunks_of spoken) = List.concat (chunks_of window)
    /\ (snd (loop initial spoken_then_more) = []
        \/ silence_threshold
           <= silence_samples (fst (loop initial spoken_then_more))).
Proof.
  apply (utterance_keeps_every_chunk spoken_then_more
           (List.concat (chunks_of spoken))).
  vm_compute. reflexivity.
Defined.

End Endpoint.

(* ================================================================== *)
(** ** Intent routing *)

Section Routing.

Import SkillRouter Props Examples.

Lemma keyword_match_some skills text name s :
  _keyword_match skills text = Ret (Some (name, s)) ->
  In (name, s) skills /\ BaseSkill_matches s text = true.
Proof.
  induction skills as [|[k sk] rest IH]; simpl; [discriminate|].
  unfold matches. destruct (inherits_BaseSkill sk); simpl; [|discriminate].
  destruct (BaseSkill_matches sk text) eqn:E.
  - intros [= -> ->]. auto.
  - intros H. destruct (IH H). auto.
Qed.

Lemma keyword_match_none skills text :
  _keyword_match skills text = Ret None ->
  forall name s, In (name, s) skills -> BaseSkill_matches s text = false.
Proof.
  induction skills as [|[k sk] rest IH]; simpl; [intros _ ? ? []|].
  unfold matches. destruct (inherits_BaseSkill sk); simpl; [|discriminate].
  destruct (BaseSkill_matches sk text) eqn:E; [discriminate|].
  intros H name s [[= <- <-] | Hin]; [exact E | now apply (IH H name)].
Qed.

Lemma lookup_in name skills s :
  lookup name skills = Some s -> In (name, s) skills.
Proof.
  induction skills as [|[k sk] rest IH]; simpl; [discriminate|].
  destruct (String.eqb k name) eqn:E.
  - apply String.eqb_eq in E. intros [= ->]. subst. auto.
  - auto.
Qed.

(** C6.  [route] invokes the handler of at most one skill.  When the
    keyword phase finds a skill, that skill's handler is the one invoked
    and the classifier is not consulted, whatever it would have answered;
    and when the keywords of any registered skill match the input, the
    classification phase is not attempted at all. *)
Theorem route_invokes_at_most_one_handler
        (W : World) (skills : Skills) (text : string) (ctx : Context) :
  (List.length (filter is_handle (snd (route W skills text ctx))) <= 1)%nat
  /\ (forall name s,
        _keyword_match skills text = Ret (Some (name, s)) ->
        route W skills text ctx
        = (Ret (guarded_handle s text ctx), [Handle name]))
  /\ ((exists name s,
         In (name, s) skills /\ BaseSkill_matches s text = true) ->
      ~ In Classify (snd (route W skills text ctx))).
Proof.
  unfold route.
  destruct (_keyword_match skills text) as [[[k sk]|]|e] eqn:Ek.
  - simpl. repeat split; [lia | now intros ? ? [= <- <-] |].
    intros _ [H | []]. discriminate.
  - repeat split.
    + destruct (_llm_classify W skills text) as [[c|]|e]; simpl; try lia.
      destruct (truthy c), (lookup c skills); simpl; lia.
    + discriminate.
    + intros (name & s & Hin & Hm).
      rewrite (keyword_match_none _ _ Ek name s Hin) in Hm. discriminate.
  - simpl. repeat split; [lia | discriminate | tauto].
Qed.

Lemma route_invokes_at_most_one_handler_witness :
  ~ In Classify
      (snd (route no_classifier [("music", music); ("time", broken)]
              "What time is it" (mkContext 1))).
Proof.
  apply (route_invokes_at_most_one_handler no_classifier
           [("music", music); ("time", broken)] "What time is it"
           (mkContext 1)).
  exists "time", broken. split; [simpl; auto | reflexivity].
Defined.

(** C9.  If the handler that [route] invokes raises, [route] catches the
    exception and returns [None], so that the caller goes on to the
    language model. *)
Theorem route_demotes_handler_failure
        (W : World) (skills : Skills) (text : string) (ctx : Context)
        (name : string) :
  In (Handle name) (snd (route W skills text ctx)) ->
  (forall s, In (name, s) skills -> exists e, handle s text ctx = Raise e) ->
  fst (route W skills text ctx) = Ret None.
Proof.
  unfold route. intros Hinvoked Hraises.
  destruct (_keyword_match skills text) as [[[k sk]|]|e] eqn:Ek.
  - simpl in *. destruct Hinvoked as [[= ->] | []].
    apply keyword_match_some in Ek. destruct Ek as [Hin _].
    destruct (Hraises sk Hin) as [e He].
    unfold guarded_handle. now rewrite He.
  - destruct (_llm_classify W skills text) as [[c|]|e]; simpl in *.
    + destruct (truthy c), (lookup c skills) as [sk|] eqn:El; simpl in *;
        try reflexivity.
      destruct Hinvoked as [H | [[= ->] | []]]; [discriminate|].
      destruct (Hraises sk (lookup_in _ _ _ El)) as [e He].
      unfold guarded_handle. now rewrite He.
    + reflexivity.
    + destruct Hinvoked as [H | []]. discriminate.
  - destruct Hinvoked.
Qed.

Lemma route_demotes_handler_failure_witness :
  fst (route no_classifier [("time", broken)] "What time is it" (mkContext 1))
  = Ret None.
Proof.
  apply (route_demotes_handler_failure no_classifier [("time", broken)]
           "What time is it" (mkContext 1) "time").
  - simpl. auto.
  - intros s [[= <-] | []]. exists Exception. reflexivity.
Defined.

End Routing.

(* ================================================================== *)
(** ** The processing step of the session *)

Section Session.

Import VoiceAssistant Props Examples.


Lemma Qlt_bool_spec (a b : Q) : Qlt_bool a b = true <-> (a < b)%Q.
Proof.
  unfold Qlt_bool. rewrite negb_true_iff. split.
  - intros H. apply Qnot_le_lt. intros Hle.
    apply Qle_bool_iff in Hle. congruence.
  - intros H. destruct (Qle_bool b a) eqn:E; [|reflexivity].
    apply Qle_bool_iff in E. exfalso. now apply (Qlt_not_le a b).
Qed.

Lemma notify_ui_run (name : string) (text : option string) (va : t) :
  notify_ui name text va
  = (Ret tt, va, if ui_callback va then [Ui name text] else []).
Proof.
  unfold notify_ui, bindM, get, emit, ret.
  destruct (ui_callback va); reflexivity.
Qed.

Lemma transition_run (s : AssistantState) (va : t) :
  _transition s va
  = (Ret tt, set_state s va,
     Transition (state va) s
       :: (if ui_callback va then [Ui (state_name s) None] else [])).
Proof.
  unfold _transition, notify_ui, bindM, get, emit, put, ret.
  cbn [ui_callback set_state]. destruct (ui_callback va); reflexivity.
Qed.





End Session.

(* ================================================================== *)
(** ** More on the conversation store *)

Section StoreBehaviour.

Import ConversationMemory Props Examples.

Lemma strongly_sorted_app_inv {A} (R : A -> A -> Prop) l1 l2 :
  StronglySorted R (l1 ++ l2) ->
  StronglySorted R l1 /\ StronglySorted R l2
  /\ (forall a b, In a l1 -> In b l2 -> R a b).
Proof.
  induction l1 as [|x l1 IH]; simpl; intros H.
  - repeat split; [constructor | exact H | intros ? ? []].
  - apply StronglySorted_inv in H. destruct H as [Hs Hx].
    destruct (IH Hs) as (H1 & H2 & H12).
    rewrite Forall_forall in Hx. repeat split.
    + constructor; [exact H1|]. rewrite Forall_forall. intros y Hy.
      apply Hx, in_or_app. now left.
    + exact H2.
    + intros a b [<- | Ha] Hb; [apply Hx, in_or_app; now right | now apply H12].
Qed.

Lemma strongly_sorted_snoc {A} (R : A -> A -> Prop) l x :
  StronglySorted R l -> Forall (fun y => R y x) l ->
  StronglySorted R (l ++ [x]).
Proof.
  induction 1 as [|y l Hs IH Hy]; simpl; intros Hx.
  - constructor; constructor.
  - inversion Hx; subst. constructor; [now apply IH|].
    rewrite Forall_forall in *. intros z Hz.
    apply in_app_or in Hz. destruct Hz as [Hz | [<- | []]]; auto.
Qed.

Lemma strongly_sorted_rev {A} (R : A -> A -> Prop) l :
  StronglySorted R l -> StronglySorted (fun a b => R b a) (rev l).
Proof.
  induction 1 as [|x l Hs IH Hx]; simpl; [constructor|].
  apply strongly_sorted_snoc; [exact IH|].
  rewrite Forall_forall in *. intros y Hy. apply Hx. now apply in_rev.
Qed.

(** What [LIMIT k] keeps and what it leaves out. *)
Lemma limit_split k l : exists rest, l = limit k l ++ rest.
Proof.
  unfold limit. destruct (k <? 0).
  - exists []. now rewrite app_nil_r.
  - exists (skipn (Z.to_nat k) l). now rewrite firstn_skipn.
Qed.

Lemma limit_length k l :
  0 <= k -> (List.length (limit k l) <= Z.to_nat k)%nat.
Proof.
  intros Hk. unfold limit. destruct (k <? 0) eqn:E.
  - apply Z.ltb_lt in E. lia.
  - apply firstn_le_length.
Qed.

(** X1.  With a non-negative effective limit, [get_recent] returns at most
    that many messages, whether or not the query goes through, and every
    message it returns is the role and content of a stored row. *)
Theorem get_recent_is_bounded
        (db_ok : bool) (n : option Z) (m : t) :
  0 <= effective_limit n m ->
  (List.length (get_recent db_ok n m) <= Z.to_nat (effective_limit n m))%nat
  /\ forall msg, In msg (get_recent db_ok n m) ->
       exists r, In r (messages m) /\ to_message r = msg.
Proof.
  intros Hk. unfold get_recent, try_except.
  destruct db_ok; [|split; [simpl; lia | intros ? []]].
  unfold recent_rows. split.
  - rewrite length_map.
    rewrite <- (Permutation_length (order_by_timestamp_asc_perm _)).
    now apply limit_length.
  - intros msg Hin. apply in_map_iff in Hin. destruct Hin as [r [<- Hr]].
    exists r. split; [|reflexivity].
    apply (Permutation_in _ (Permutation_sym (order_by_timestamp_asc_perm _)))
      in Hr.
    destruct (limit_split (effective_limit n m)
                (order_by_timestamp_desc (messages m))) as [rest Hsplit].
    assert (Hd : In r (order_by_timestamp_desc (messages m))).
    { rewrite Hsplit. apply in_or_app. now left. }
    unfold order_by_timestamp_desc in Hd. apply in_rev in Hd.
    now apply (Permutation_in _
                 (Permutation_sym (order_by_timestamp_asc_perm _))) in Hd.
Qed.

Lemma get_recent_is_bounded_witness :
  (List.length (get_recent true (Some 1%Z)
                  (add 15%Z true "user" "later" None one_message))
   <= Z.to_nat 1%Z)%nat
  /\ forall msg,
       In msg (get_recent true (Some 1)
                 (add 15 true "user" "later" None one_message)) ->
       exists r,
         In r (messages (add 15 true "user" "later" None one_message))
         /\ to_message r = msg.
Proof.
  apply (get_recent_is_bounded true (Some 1)
           (add 15 true "user" "later" None one_message)).
  discriminate.
Defined.

(** X2.  The rows [get_recent] selects are the newest ones: the table splits
    into the selected rows and the rest, no row of the rest is stamped
    later than a selected row, and the selected rows come out in
    non-decreasing timestamp order. *)
Theorem get_recent_selects_newest (n : option Z) (m : t) :
  exists rest,
    Permutation (messages m) (recent_rows n m ++ rest)
    /\ (forall old new,
          In old rest -> In new (recent_rows n m) -> by_timestamp old new)
    /\ StronglySorted by_timestamp (recent_rows n m).
Proof.
  unfold recent_rows.
  destruct (limit_split (effective_limit n m)
              (order_by_timestamp_desc (messages m))) as [rest Hsplit].
  exists rest. repeat split.
  - rewrite <- (order_by_timestamp_asc_perm (limit _ _)), <- Hsplit.
    unfold order_by_timestamp_desc. rewrite <- Permutation_rev.
    apply order_by_timestamp_asc_perm.
  - intros old new Hold Hnew.
    apply (Permutation_in _ (Permutation_sym (order_by_timestamp_asc_perm _)))
      in Hnew.
    pose proof (strongly_sorted_rev _ _
                  (order_by_timestamp_asc_sorted (messages m))) as Hs.
    fold (order_by_timestamp_desc (messages m)) in Hs. rewrite Hsplit in Hs.
    apply strongly_sorted_app_inv in Hs. destruct Hs as (_ & _ & H12).
    exact (H12 new old Hnew Hold).
  - apply order_by_timestamp_asc_sorted.
Qed.



(** X4.  When both INSERTs of [add_exchange] go through, the clock readings
    are later than every stored timestamp and the second is later than the
    first, then [get_recent] with a limit of at least two (or no limit)
    ends with the user message followed by the assistant message, as they
    were given. *)
Theorem add_exchange_is_read_back
        (m : t) (now_user now_assistant : Z)
        (user_msg assistant_msg : string) (n : option Z) :
  Forall (fun r => row_timestamp r < now_user) (messages m) ->
  now_user < now_assistant ->
  effective_limit n m < 0 \/ 2 <= effective_limit n m ->
  exists older,
    get_recent true n
      (add_exchange now_user now_assistant true true user_msg assistant_msg m)
    = older ++ [mkMessage "user" user_msg;
                mkMessage "assistant" assistant_msg].
Proof.
  intros Hlater Hclock Hlimit.
  set (u := mkRow (sqlite_sequence m + 1) "user" user_msg now_user None).
  set (a := mkRow (sqlite_sequence m + 1 + 1) "assistant" assistant_msg
                  now_assistant None).
  unfold get_recent, add_exchange, add, try_except, recent_rows; simpl.
  fold u. fold a.
  replace (effective_limit n _) with (effective_limit n m)
    by (destruct n; reflexivity).
  assert (Hu : Forall (fun r => row_timestamp r < row_timestamp a)
                 (messages m ++ [u])).
  { rewrite Forall_forall in *. intros r Hr. apply in_app_or in Hr.
    destruct Hr as [Hr | [<- | []]]; [specialize (Hlater r Hr)|]; simpl; lia. }
  unfold order_by_timestamp_desc.
  rewrite (order_asc_latest_last a) by exact Hu.
  rewrite (order_asc_latest_last u) by exact Hlater.
  rewrite !rev_app_distr; simpl.
  assert (Hkeep : exists l',
             limit (effective_limit n m)
               (a :: u :: rev (order_by_timestamp_asc (messages m)))
             = a :: u :: l'
             /\ incl l' (rev (order_by_timestamp_asc (messages m)))).
  { unfold limit. destruct (effective_limit n m <? 0) eqn:E.
    - eexists. split; [reflexivity | apply incl_refl].
    - apply Z.ltb_ge in E.
      destruct (Z.to_nat (effective_limit n m)) as [|[|k]] eqn:Ek; try lia.
      eexists. split; [reflexivity|]. intros x Hx.
      rewrite <- (firstn_skipn k (rev _)). apply in_or_app. now left. }
  destruct Hkeep as [l' [-> Hincl]].
  assert (Hl' : Forall (fun r => row_timestamp r < row_timestamp u) l').
  { rewrite Forall_forall in *. intros x Hx. apply Hlater.
    apply Hincl, in_rev in Hx.
    eapply Permutation_in; [symmetry; apply order_by_timestamp_asc_perm|].
    exact Hx. }
  rewrite (order_asc_latest_first a).
  - rewrite (order_asc_latest_first u) by exact Hl'.
    exists (map to_message (order_by_timestamp_asc l')).
    rewrite !map_app, <- app_assoc. reflexivity.
  - constructor; [simpl; lia|].
    rewrite Forall_forall in *. intros x Hx. specialize (Hl' x Hx).
    simpl in *. lia.
Qed.

Lemma add_exchange_is_read_back_witness :
  exists older,
    get_recent true (Some 2)
      (add_exchange 20 21 true true "hello" "hi there" one_message)
    = older ++ [mkMessage "user" "hello"; mkMessage "assistant" "hi there"].
Proof.
  apply (add_exchange_is_read_back one_message 20 21 "hello" "hi there"
           (Some 2)).
  - repeat constructor.
  - reflexivity.
  - right. discriminate.
Defined.

End StoreBehaviour.

(* ================================================================== *)
(** ** More on the chain of chat backends *)

Section ChainBehaviour.

Import LLMRouter Props Examples.

(** X5.  [_check_ollama] probes once: after a call the router holds the
    answer, and every later call returns that answer and leaves the router
    as it is, whatever the server would say by then. *)
Theorem check_ollama_is_cached (W W2 : World) (r : t) :
  _check_ollama W2 (snd (_check_ollama W r)) = _check_ollama W r
  /\ _ollama_available (snd (_check_ollama W r))
     = Some (fst (_check_ollama W r)).
Proof.
  unfold _check_ollama, try_except, bind.
  destruct (_ollama_available r) as [b|] eqn:E.
  - simpl. rewrite E. auto.
  - destruct (ollama_list W) as [names|e]; [|simpl; auto].
    destruct (first_containing _ _); [simpl; auto|].
    destruct (first_fallback _ _); [simpl; auto|].
    destruct (filter truthy names); simpl; auto.
Qed.

(** X6.  [_check_lmstudio] probes once: after a call the router holds the
    answer, and every later call returns that answer and leaves the router
    as it is, whatever the server would say by then. *)
Theorem check_lmstudio_is_cached (W W2 : World) (r : t) :
  _check_lmstudio W2 (snd (_check_lmstudio W r)) = _check_lmstudio W r
  /\ _lmstudio_available (snd (_check_lmstudio W r))
     = Some (fst (_check_lmstudio W r)).
Proof.
  unfold _check_lmstudio, try_except, bind.
  destruct (_lmstudio_available r) as [b|] eqn:E.
  - simpl. rewrite E. auto.
  - destruct (client_init W LMStudio); [|simpl; auto].
    destruct (lmstudio_models W) as [[|x l]|e]; simpl; auto.
Qed.

Lemma truthy_spec (s : string) : truthy s = true <-> s <> EmptyString.
Proof. destruct s; simpl; split; congruence. Qed.

Lemma first_fallback_in fs models m :
  first_fallback fs models = Some m -> In m models.
Proof.
  induction fs as [|f fs IH]; simpl; [discriminate|].
  unfold first_containing.
  destruct (find _ models) as [x|] eqn:E; [|exact IH].
  destruct (truthy x); [|exact IH].
  intros [= <-]. now apply find_some in E.
Qed.

(** X7.  On a router that has not probed yet, [_check_ollama] reports Ollama
    available exactly when [ollama.list()] succeeds and lists at least one
    model with a non-empty name; the model name it settles on is then one of
    the listed names, and it contains the configured name whenever some
    listed model does. *)
Theorem check_ollama_probe (W : World) (r : t) :
  _ollama_available r = None ->
  (fst (_check_ollama W r) = true <->
   exists names m,
     ollama_list W = Ret names /\ In m names /\ m <> EmptyString)
  /\ (fst (_check_ollama W r) = true ->
      exists names,
        ollama_list W = Ret names
        /\ In (_ollama_model_name (snd (_check_ollama W r))) names
        /\ _ollama_model_name (snd (_check_ollama W r)) <> EmptyString)
  /\ (forall names m,
        ollama_list W = Ret names -> In m names -> m <> EmptyString ->
        contains (_ollama_model_name r) m = true ->
        contains (_ollama_model_name r)
          (_ollama_model_name (snd (_check_ollama W r))) = true).
Proof.
  intros Hnone. unfold _check_ollama, try_except, bind. rewrite Hnone.
  destruct (ollama_list W) as [names|e].
  2:{ simpl. split; [split; [discriminate|]|split; [discriminate|]].
      - intros (? & ? & H & _). discriminate.
      - intros ? ? H. discriminate. }
  assert (Hf : forall m, In m (filter truthy names) <->
                         In m names /\ m <> EmptyString).
  { intros m. rewrite filter_In, truthy_spec. tauto. }
  assert (Hyes : forall m,
             In m names /\ m <> EmptyString ->
             (true = true <->
              exists names' m',
                Ret names = Ret names' /\ In m' names' /\ m' <> EmptyString)
             /\ (true = true ->
                 exists names',
                   Ret names = Ret names' /\ In m names'
                   /\ m <> EmptyString)).
  { intros m Hm. split; [split; [intros _; exists names, m; tauto|auto]|].
    intros _. exists names. tauto. }
  unfold first_containing.
  destruct (find _ (filter truthy names)) as [m1|] eqn:E1.
  { apply find_some in E1. destruct E1 as [Hin1 Hc1].
    apply Hf in Hin1. simpl. destruct (Hyes m1 Hin1) as [H1 H2].
    split; [exact H1|]. split; [exact H2|]. intros. exact Hc1. }
  assert (Hno : forall names' m,
             Ret names = Ret names' -> In m names' -> m <> EmptyString ->
             contains (_ollama_model_name r) m = true -> False).
  { intros names' m [= <-] Hin Hne Hc.
    pose proof (find_none _ _ E1 m (proj2 (Hf m) (conj Hin Hne))) as H.
    simpl in H. congruence. }
  destruct (first_fallback fallbacks (filter truthy names)) as [m2|] eqn:E2.
  { apply first_fallback_in, Hf in E2. simpl.
    destruct (Hyes m2 E2) as [H1 H2].
    split; [exact H1|]. split; [exact H2|].
    intros names' m H3 H4 H5 H6. destruct (Hno names' m H3 H4 H5 H6). }
  destruct (filter truthy names) as [|m3 l] eqn:E3; simpl.
  - split; [split; [discriminate|]|split; [discriminate|]].
    + intros (names' & m & [= <-] & Hin & Hne).
      destruct (proj2 (Hf m) (conj Hin Hne)).
    + intros names' m H1 H2 H3 H4. destruct (Hno names' m H1 H2 H3 H4).
  - assert (H3 : In m3 names /\ m3 <> EmptyString)
      by (apply Hf; now left).
    destruct (Hyes m3 H3) as [H1 H2].
    split; [exact H1|]. split; [exact H2|].
    intros names' m H4 H5 H6 H7. destruct (Hno names' m H4 H5 H6 H7).
Qed.

Lemma check_ollama_probe_witness :
  exists names,
    ollama_list (ollama_world ["mistral:7b"; "llama3.2:3b"]) = Ret names
    /\ In (_ollama_model_name
             (snd (_check_ollama (ollama_world ["mistral:7b"; "llama3.2:3b"])
                     fresh_router))) names
    /\ _ollama_model_name
         (snd (_check_ollama (ollama_world ["mistral:7b"; "llama3.2:3b"])
                 fresh_router)) <> EmptyString.
Proof.
  apply (check_ollama_probe (ollama_world ["mistral:7b"; "llama3.2:3b"])
           fresh_router); reflexivity.
Defined.

Lemma lazy_client_spec (W : World) (b : Backend) (c : bool) (key : string) :
  lazy_client W b c key = true <->
  c = true \/ (key <> EmptyString /\ client_init W b = true).
Proof.
  unfold lazy_client, try_except. rewrite <- truthy_spec.
  destruct c, (truthy key), (client_init W b); simpl; intuition congruence.
Qed.

Lemma lazy_client_idempotent (W : World) (b : Backend) (c : bool)
      (key : string) :
  lazy_client W b (lazy_client W b c key) key = lazy_client W b c key.
Proof.
  unfold lazy_client, try_except.
  destruct c, (truthy key), (client_init W b); reflexivity.
Qed.

(** X8.  [_configure_online] is idempotent for a given outside, and a client
    it leaves in place was either there before or has a non-empty API key:
    no client is ever created for a missing key. *)
Theorem configure_online_needs_keys (W : World) (r : t) :
  _configure_online W (_configure_online W r) = _configure_online W r
  /\ (_groq_client (_configure_online W r) = true ->
      _groq_client r = true \/ GROQ_API_KEY (config W) <> EmptyString)
  /\ (_nvidia_client (_configure_online W r) = true ->
      _nvidia_client r = true \/ NVIDIA_API_KEY (config W) <> EmptyString)
  /\ (_openrouter_client (_configure_online W r) = true ->
      _openrouter_client r = true
      \/ OPENROUTER_API_KEY (config W) <> EmptyString)
  /\ (_gemini_client (_configure_online W r) = true ->
      _gemini_client r = true \/ GEMINI_API_KEY (config W) <> EmptyString).
Proof.
  split.
  - unfold _configure_online, set_clients. simpl.
    now rewrite !lazy_client_idempotent.
  - unfold _configure_online, set_clients. simpl.
    repeat split; intros H; apply lazy_client_spec in H; tauto.
Qed.

Lemma chat_final_state (W : World) (r : t) (user_message : string) :
  exists r',
    chat W r user_message
    = Ret (match first_answer (attempt W r user_message) chain with
           | Some s => s
           | None => apology
           end, r')
    /\ memory r'
       = match first_answer (attempt W r user_message) chain with
         | Some s =>
             ConversationMemory.add_exchange
               (now_user W) (now_assistant W)
               (db_write_user_ok W) (db_write_assistant_ok W)
               user_message s (memory r)
         | None => memory r
         end
    /\ max_history r' = max_history r
    /\ prefer_local r' = prefer_local r
    /\ _ollama_available r'
       = _ollama_available
           (snd (step_ollama W (_configure_online W r) user_message)).
Proof.
  unfold chat, chain, first_answer, attempt.
  set (rc := _configure_online W r).
  destruct (step_ollama_state W rc user_message) as [a [n Ho]].
  destruct (step_ollama W rc user_message) as [o1 r1]. simpl in Ho. subst r1.
  unfold if_none at 5. cbn [fst snd].
  destruct o1 as [s|]; [eexists; repeat split; reflexivity|].
  rewrite step_lmstudio_after_ollama.
  destruct (step_lmstudio_state W rc user_message) as [c [l Hl]].
  destruct (step_lmstudio W rc user_message) as [o2 r2]. simpl in Hl. subst r2.
  unfold if_none. cbn [fst snd].
  destruct o2 as [s|]; [eexists; repeat split; reflexivity|].
  cbn [fst snd].
  change (_chat_groq W (set_ollama a n (set_lmstudio c l rc)) user_message)
    with (_chat_groq W rc user_message).
  destruct (_chat_groq W rc user_message) as [s|];
    [eexists; repeat split; reflexivity|].
  cbn [fst snd].
  change (_chat_nvidia W (set_ollama a n (set_lmstudio c l rc)) user_message)
    with (_chat_nvidia W rc user_message).
  destruct (_chat_nvidia W rc user_message) as [s|];
    [eexists; repeat split; reflexivity|].
  cbn [fst snd].
  change (_chat_openrouter W (set_ollama a n (set_lmstudio c l rc))
            user_message)
    with (_chat_openrouter W rc user_message).
  destruct (_chat_openrouter W rc user_message) as [s|];
    [eexists; repeat split; reflexivity|].
  cbn [fst snd].
  rewrite !chat_gemini_always_fails.
  eexists; repeat split; reflexivity.
Qed.

(** X9.  When the local server is preferred and available and its chat
    completion raises during [chat], the call still returns, the router
    records Ollama as unavailable, and no later call of [chat] asks Ollama
    again, whatever the server would answer. *)
Theorem ollama_failure_disables_ollama
        (W : World) (r r1 : t) (user_message : string) (e : exn) :
  prefer_local r = true ->
  _check_ollama W (_configure_online W r) = (true, r1) ->
  completion W Ollama (_ollama_model_name r1)
    (_build_messages W Ollama r1 user_message) = Raise e ->
  exists reply r',
    chat W r user_message = Ret (reply, r')
    /\ _ollama_available r' = Some false
    /\ forall W2 later_message, attempt W2 r' later_message Ollama = None.
Proof.
  intros Hlocal Hcheck Hraise.
  destruct (chat_final_state W r user_message)
    as (r' & Hchat & _ & _ & Hpl & Hoa).
  eexists _, r'. split; [exact Hchat|].
  assert (Hfalse : _ollama_available r' = Some false).
  { rewrite Hoa. unfold step_ollama.
    change (prefer_local (_configure_online W r)) with (prefer_local r).
    rewrite Hlocal, Hcheck. unfold _chat_ollama, try_except, bind.
    now rewrite Hraise. }
  split; [exact Hfalse|].
  intros W2 later_message. unfold attempt, step_ollama.
  change (prefer_local (_configure_online W2 r')) with (prefer_local r').
  rewrite Hpl, Hlocal. unfold _check_ollama.
  change (_ollama_available (_configure_online W2 r'))
    with (_ollama_available r').
  now rewrite Hfalse.
Qed.

Lemma ollama_failure_disables_ollama_witness :
  exists reply r',
    chat (groq_world (Ret None))
      (set_ollama (Some true) "llama3.2" fresh_router) "hello"
    = Ret (reply, r')
    /\ _ollama_available r' = Some false
    /\ forall W2 later_message, attempt W2 r' later_message Ollama = None.
Proof.
  apply (ollama_failure_disables_ollama (groq_world (Ret None))
           (set_ollama (Some true) "llama3.2" fresh_router)
           (_configure_online (groq_world (Ret None))
              (set_ollama (Some true) "llama3.2" fresh_router))
           "hello" Exception).
  - reflexivity.
  - reflexivity.
  - reflexivity.
Defined.

(** X10.  When some backend answers, both INSERTs go through, the clock
    readings are later than every stored timestamp and in order, and the
    history limit is at least two (or absent), then [chat] returns that
    answer and the message list built for any later request ends with the
    user message, the answer, and the new user message. *)
Theorem chat_feeds_next_prompt
        (W : World) (r : t) (user_message answer : string) :
  first_answer (attempt W r user_message) chain = Some answer ->
  db_write_user_ok W = true ->
  db_write_assistant_ok W = true ->
  Forall (fun row => ConversationMemory.row_timestamp row < now_user W)
    (ConversationMemory.messages (memory r)) ->
  now_user W < now_assistant W ->
  max_history r < 0 \/ 2 <= max_history r ->
  exists r',
    chat W r user_message = Ret (answer, r')
    /\ forall W2 b next_message,
         db_read_ok W2 b = true ->
         exists older,
           _build_messages W2 b r' next_message
           = mkMessage "system" (SYSTEM_PROMPT (config W2))
               :: older
               ++ [mkMessage "user" user_message;
                   mkMessage "assistant" answer;
                   mkMessage "user" next_message].
Proof.
  intros Hanswer Hwu Hwa Hlater Hclock Hlimit.
  destruct (chat_final_state W r user_message)
    as (r' & Hchat & Hmem & Hmax & _ & _).
  rewrite Hanswer in Hchat, Hmem. rewrite Hwu, Hwa in Hmem.
  exists r'. split; [exact Hchat|].
  intros W2 b next_message Hread. unfold _build_messages.
  rewrite Hread, Hmem, Hmax.
  destruct (add_exchange_is_read_back (memory r) (now_user W)
              (now_assistant W) user_message answer
              (Some (max_history r)) Hlater Hclock) as [older Holder].
  { simpl. destruct (max_history r =? 0) eqn:E; [|exact Hlimit].
    apply Z.eqb_eq in E. lia. }
  exists older. rewrite Holder. simpl. now rewrite <- app_assoc.
Qed.

Lemma chat_feeds_next_prompt_witness :
  exists r',
    chat (groq_world (Ret (Some "Sure thing!"))) fresh_router "hello"
    = Ret ("Sure thing!"%string, r')
    /\ forall W2 b next_message,
         db_read_ok W2 b = true ->
         exists older,
           _build_messages W2 b r' next_message
           = mkMessage "system" (SYSTEM_PROMPT (config W2))
               :: older
               ++ [mkMessage "user" "hello";
                   mkMessage "assistant" "Sure thing!";
                   mkMessage "user" next_message].
Proof.
  apply (chat_feeds_next_prompt (groq_world (Ret (Some "Sure thing!")))
           fresh_router "hello" "Sure thing!").
  - reflexivity.
  - reflexivity.
  - reflexivity.
  - constructor.
  - reflexivity.
  - right. discriminate.
Defined.

(** X11.  With a positive history limit, [_build_messages] yields the system
    prompt, at most that many history messages, each the role and content
    of a stored row, and the current user message last; this holds also
    when the history query fails. *)
Theorem build_messages_is_bounded
        (W : World) (b : Backend) (r : t) (user_message : string) :
  0 < max_history r ->
  exists history,
    _build_messages W b r user_message
    = mkMessage "system" (SYSTEM_PROMPT (config W))
        :: history ++ [mkMessage "user" user_message]
    /\ (List.length history <= Z.to_nat (max_history r))%nat
    /\ forall msg, In msg history ->
         exists row,
           In row (ConversationMemory.messages (memory r))
           /\ ConversationMemory.to_message row = msg.
Proof.
  intros Hmax. unfold _build_messages.
  eexists. split; [reflexivity|].
  assert (Hlim : ConversationMemory.effective_limit
                   (Some (max_history r)) (memory r) = max_history r).
  { simpl. destruct (max_history r =? 0) eqn:E; [|reflexivity].
    apply Z.eqb_eq in E. lia. }
  destruct (get_recent_is_bounded (db_read_ok W b) (Some (max_history r))
              (memory r)) as [Hlen Hin].
  { rewrite Hlim. lia. }
  rewrite Hlim in Hlen. split; [exact Hlen | exact Hin].
Qed.

Lemma build_messages_is_bounded_witness :
  exists history,
    _build_messages (groq_world (Ret None)) Groq fresh_router "hello"
    = mkMessage "system" (SYSTEM_PROMPT (config (groq_world (Ret None))))
        :: history ++ [mkMessage "user" "hello"]
    /\ (List.length history <= Z.to_nat (max_history fresh_router))%nat
    /\ forall msg, In msg history ->
         exists row,
           In row (ConversationMemory.messages (memory fresh_router))
           /\ ConversationMemory.to_message row = msg.
Proof.
  apply (build_messages_is_bounded (groq_world (Ret None)) Groq
           fresh_router "hello").
  reflexivity.
Defined.

End ChainBehaviour.

(* ================================================================== *)
(** ** More on endpoint detection *)

Section EndpointBehaviour.

Import SpeechToText Props Examples.

Lemma classes_app a b : classes (a ++ b) = classes a ++ classes b.
Proof.
  induction a as [|[|d q] a IH]; simpl; [reflexivity | exact IH | now rewrite IH].
Qed.

Lemma speech_chunks_nonneg polls : 0 <= speech_chunks polls.
Proof.
  induction polls as [|[|d q] polls IH]; simpl; try lia.
  destruct (Qgt_bool q VAD_THRESHOLD); lia.
Qed.

Lemma trailing_silence_snoc seen p :
  trailing_silence (seen ++ [p])
  = match p with
    | NoChunk => trailing_silence seen
    | Chunk _ q =>
        if Qgt_bool q VAD_THRESHOLD then 0 else 1 + trailing_silence seen
    end.
Proof.
  unfold trailing_silence. rewrite classes_app.
  destruct p as [|d q]; simpl.
  - now rewrite app_nil_r.
  - rewrite rev_app_distr. simpl.
    destruct (Qgt_bool q VAD_THRESHOLD); reflexivity.
Qed.

Lemma body_silence st seen p :
  silence_invariant st seen ->
  (has_speech st = true -> silence_samples st < silence_threshold) ->
  silence_invariant (fst (body st p)) (seen ++ [p])
  /\ (snd (body st p) = true ->
      has_speech (fst (body st p)) = true
      /\ silence_samples (fst (body st p)) = silence_threshold)
  /\ (snd (body st p) = false ->
      has_speech (fst (body st p)) = true ->
      silence_samples (fst (body st p)) < silence_threshold).
Proof.
  intros [Hyes Hno] Hlt. unfold silence_invariant.
  rewrite trailing_silence_snoc.
  destruct p as [|d q]; cbn [body fst snd].
  - repeat split; auto; discriminate.
  - destruct (Qgt_bool q VAD_THRESHOLD); cbn [fst snd has_speech silence_samples].
    + repeat split; try reflexivity; try discriminate.
    + destruct (has_speech st) eqn:Hs; cbn [fst snd has_speech silence_samples].
      * specialize (Hyes eq_refl). specialize (Hlt eq_refl).
        split; [split; [intros _; lia | discriminate] | split].
        -- intros H. apply Z.geb_le in H. split; [reflexivity | lia].
        -- intros H _. rewrite Z.geb_leb in H. apply Z.leb_gt in H. lia.
      * repeat split; try discriminate; auto.
Qed.

Lemma loop_silence polls :
  forall st seen,
    silence_invariant st seen ->
    (has_speech st = true -> silence_samples st < silence_threshold) ->
    exists window,
      polls = window ++ snd (loop st polls)
      /\ silence_invariant (fst (loop st polls)) (seen ++ window)
      /\ (snd (loop st polls) <> [] ->
          has_speech (fst (loop st polls)) = true
          /\ silence_samples (fst (loop st polls)) = silence_threshold).
Proof.
  induction polls as [|p rest IH]; intros st seen Hinv Hlt.
  - exists []. simpl. rewrite app_nil_r.
    split; [reflexivity|]. split; [exact Hinv|].
    intros Hc. now contradiction Hc.
  - simpl. destruct (body_silence st seen p Hinv Hlt) as (Hinv' & Hb & Hnb).
    destruct (body st p) as [st' broke]. simpl in Hinv', Hb, Hnb.
    destruct broke.
    + exists [p]. simpl. auto.
    + destruct (IH st' (seen ++ [p]) Hinv' (Hnb eq_refl))
        as (window & Hsplit & Hw & Hend).
      exists (p :: window). simpl. rewrite <- Hsplit.
      rewrite <- app_assoc in Hw. auto.
Qed.

Lemma initial_silence :
  silence_invariant initial []
  /\ (has_speech initial = true -> silence_samples initial < silence_threshold).
Proof. repeat split; try reflexivity; discriminate. Qed.

(** X12.  [listen_with_vad] leaves polls unread only after it has confirmed
    speech and has then read 21 silence-classified chunks in a row: the
    polls it did read end with exactly that many consecutive silence
    chunks, a speech chunk in between starting the count anew. *)
Theorem early_stop_needs_silence (polls : list Poll) :
  snd (loop initial polls) <> [] ->
  exists window,
    polls = window ++ snd (loop initial polls)
    /\ listen_with_vad polls <> None
    /\ trailing_silence window = silence_threshold
    /\ silence_threshold = 21.
Proof.
  intros Hleft.
  destruct initial_silence as [H0 H1].
  destruct (loop_silence polls initial [] H0 H1)
    as (window & Hsplit & [Hyes _] & Hend).
  destruct (Hend Hleft) as [Hs Hsil].
  exists window. simpl in Hyes. repeat split; try assumption.
  - unfold listen_with_vad. rewrite Hs. discriminate.
  - rewrite <- Hsil. symmetry. now apply Hyes.
Qed.

Lemma early_stop_needs_silence_witness :
  exists window,
    spoken_then_more = window ++ snd (loop initial spoken_then_more)
    /\ listen_with_vad spoken_then_more <> None
    /\ trailing_silence window = silence_threshold
    /\ silence_threshold = 21.
Proof.
  apply (early_stop_needs_silence spoken_then_more).
  vm_compute. discriminate.
Defined.

(** X13.  When fewer speech-classified chunks arrive than the minimum-speech
    threshold, [listen_with_vad] returns [None], and it does so only at the
    deadline: it reads every poll, since silence is not counted before
    speech is confirmed. *)
Theorem too_little_speech_is_no_utterance (polls : list Poll) :
  speech_chunks polls < min_speech_threshold ->
  listen_with_vad polls = None /\ snd (loop initial polls) = [].
Proof.
  intros Hfew.
  destruct (loop_keeps_invariant polls initial [] initial_invariant)
    as (window & Hsplit & (Hcount & _ & Hspeech) & _).
  assert (Hs : has_speech (fst (loop initial polls)) = false).
  { destruct (has_speech (fst (loop initial polls))) eqn:E; [|reflexivity].
    assert (H : min_speech_threshold <= speech_samples (fst (loop initial polls)))
      by now apply Hspeech.
    simpl in Hcount. rewrite Hcount in H.
    rewrite Hsplit, speech_chunks_app in Hfew.
    pose proof (speech_chunks_nonneg (snd (loop initial polls))). lia. }
  split.
  - unfold listen_with_vad. now rewrite Hs.
  - destruct initial_silence as [H0 H1].
    destruct (loop_silence polls initial [] H0 H1) as (_ & _ & _ & Hend).
    destruct (snd (loop initial polls)) as [|p rest]; [reflexivity|].
    destruct Hend as [Hyes _]; [discriminate | congruence].
Qed.

Lemma too_little_speech_is_no_utterance_witness :
  listen_with_vad [silence; speech; NoChunk; silence] = None
  /\ snd (loop initial [silence; speech; NoChunk; silence]) = [].
Proof.
  apply (too_little_speech_is_no_utterance
           [silence; speech; NoChunk; silence]).
  reflexivity.
Defined.

End EndpointBehaviour.

(* ================================================================== *)
(** ** More on intent routing *)

Section RoutingBehaviour.

Import SkillRouter Props Examples.


(** X15.  The skill [_keyword_match] returns is the first one in registration
    order whose keywords match: it derives from [BaseSkill], it matches,
    and every skill registered before it derives from [BaseSkill] and does
    not match. *)
Theorem first_registered_match_wins
        (skills : Skills) (text : string) (name : string) (s : Skill) :
  _keyword_match skills text = Ret (Some (name, s)) ->
  exists earlier later,
    skills = earlier ++ (name, s) :: later
    /\ inherits_BaseSkill s = true
    /\ BaseSkill_matches s text = true
    /\ forall name' s',
         In (name', s') earlier ->
         inherits_BaseSkill s' = true /\ BaseSkill_matches s' text = false.
Proof.
  induction skills as [|[k sk] rest IH]; simpl; [discriminate|].
  unfold matches. destruct (inherits_BaseSkill sk) eqn:Ei; simpl;
    [|discriminate].
  destruct (BaseSkill_matches sk text) eqn:Em.
  - intros [= -> ->]. exists [], rest. simpl.
    split; [reflexivity|]. split; [exact Ei|]. split; [exact Em|].
    intros ? ? [].
  - intros H. destruct (IH H) as (earlier & later & -> & Hi & Hm & Hbefore).
    exists ((k, sk) :: earlier), later. simpl.
    split; [reflexivity|]. split; [exact Hi|]. split; [exact Hm|].
    intros name' s' [[= <- <-] | Hin]; [auto | now apply (Hbefore name' s')].
Qed.

Lemma first_registered_match_wins_witness :
  exists earlier later,
    [("music", music); ("time", broken)] = earlier ++ ("time", broken) :: later
    /\ inherits_BaseSkill broken = true
    /\ BaseSkill_matches broken "What time is it" = true
    /\ forall name' s',
         In (name', s') earlier ->
         inherits_BaseSkill s' = true
         /\ BaseSkill_matches s' "What time is it" = false.
Proof.
  apply (first_registered_match_wins [("music", music); ("time", broken)]
           "What time is it" "time" broken).
  reflexivity.
Defined.

(** X16.  A registered skill whose class does not derive from [BaseSkill]
    has no [matches] method: when no skill registered before it matches the
    text, [route] raises [AttributeError] before any handler or the
    classifier is invoked, whatever is registered after it. *)
Theorem skill_without_matches_breaks_routing
        (W : World) (earlier later : Skills) (name : string) (s : Skill)
        (text : string) (ctx : Context) :
  inherits_BaseSkill s = false ->
  (forall name' s',
     In (name', s') earlier ->
     inherits_BaseSkill s' = true /\ BaseSkill_matches s' text = false) ->
  route W (earlier ++ (name, s) :: later) text ctx
  = (Raise AttributeError, []).
Proof.
  intros Hduck Hearlier. unfold route.
  assert (H : _keyword_match (earlier ++ (name, s) :: later) text
              = Raise AttributeError).
  { induction earlier as [|[k sk] earlier IH]; simpl.
    - unfold matches. now rewrite Hduck.
    - destruct (Hearlier k sk (or_introl eq_refl)) as [Hi Hm].
      unfold matches. rewrite Hi. simpl. rewrite Hm. apply IH.
      intros name' s' Hin. apply (Hearlier name' s'). now right. }
  now rewrite H.
Qed.

Lemma skill_without_matches_breaks_routing_witness :
  route no_classifier [("music", music); ("reminder", reminder)]
    "remind me in 5 minutes" (mkContext 1)
  = (Raise AttributeError, []).
Proof.
  apply (skill_without_matches_breaks_routing no_classifier
           [("music", music)] [] "reminder" reminder
           "remind me in 5 minutes" (mkContext 1)).
  - reflexivity.
  - intros name' s' [[= <- <-] | []]. split; reflexivity.
Defined.



End RoutingBehaviour.

(* ================================================================== *)
(** ** More on the session *)

Section SessionBehaviour.

Import VoiceAssistant Props Examples.

Lemma process_speech_ends_resting
      (W : World) (audio_bytes : list byte) (va va' : t)
      (tr : list Event) :
  _process_speech W audio_bytes va = (Ret tt, va', tr) ->
  state va' = IDLE \/ state va' = LISTENING.
Proof.
  unfold _process_speech, bindM, emit, lift.
  destruct (transcribe W audio_bytes) as [[text confidence]|e];
    [|discriminate].
  destruct (negb (truthy text) || Qlt_bool confidence (4 # 10))%bool.
  - rewrite transition_run. intros [= <- _]. now left.
  - rewrite notify_ui_run.
    destruct (respond W text confidence va) as [[[response|e] va1] tr1];
      [|discriminate].
    cbv beta iota zeta. rewrite !transition_run, notify_ui_run.
    cbv beta iota zeta.
    destruct (speak_streaming W (final_text response)) as [[]|e];
      [|discriminate].
    destruct (if negb (requested_continuation response)
              then _should_continue_listening (final_text response)
              else requested_continuation response);
      rewrite transition_run; intros [= <- _]; simpl; auto.
Qed.

Lemma process_state_ends_resting (W : World) (va va' : t) (tr : list Event) :
  resting (state va) ->
  _process_state W va = (Ret tt, va', tr) ->
  resting (state va').
Proof.
  unfold resting, _process_state, bindM, get, lift, ret, put.
  intros Hrest. destruct (state va) eqn:Es.
  - destruct (nonempty (audio_chunk W)) as [chunk|].
    + destruct (process_audio W chunk) as [detected|e]; [|discriminate].
      destruct (detected || _wake_triggered va)%bool.
      * rewrite transition_run. intros [= <- _]. simpl. auto.
      * intros [= <- _]. auto.
    + intros [= <- _]. auto.
  - destruct (play_ding W) as [[]|e]; [|discriminate].
    rewrite transition_run. intros [= <- _]. simpl. auto.
  - destruct (nonempty (SpeechToText.listen_with_vad (polls W)))
      as [audio_bytes|].
    + rewrite transition_run. cbv beta iota zeta.
      destruct (_process_speech W audio_bytes (set_state PROCESSING va))
        as [[[[]|e] va2] tr2] eqn:Ep; [|discriminate].
      intros [= <- _]. apply process_speech_ends_resting in Ep. tauto.
    + rewrite transition_run. intros [= <- _]. simpl. auto.
  - destruct Hrest as [H | [H | H]]; discriminate.
  - destruct Hrest as [H | [H | H]]; discriminate.
Qed.

Lemma iteration_ends_resting (k : Run.Tick) (s : Run.t) :
  resting (state (Run.assistant s)) ->
  resting (state (Run.assistant (fst (fst (Run.iteration k s))))).
Proof.
  intros Hrest. unfold Run.iteration.
  destruct (_process_state (Run.world k) (Run.assistant s))
    as [[[[]|e] va1] tr1] eqn:Ep.
  - simpl. now apply (process_state_ends_resting _ _ _ _ Hrest Ep).
  - rewrite transition_run. simpl. left. reflexivity.
Qed.

(** X18.  Whatever happens during the iterations of [run], the session is in
    IDLE, WAKE or LISTENING after each of them and never in PROCESSING or
    SPEAKING, the two states in which [_process_state] would do nothing: a
    turn either runs to its last transition or raises and is reset to
    IDLE. *)
Theorem run_never_rests_in_processing (ks : list Run.Tick) (s : Run.t) :
  resting (state (Run.assistant (fst (Run.run ks s)))).
Proof.
  unfold Run.run.
  assert (H0 : resting
                 (state (Run.assistant
                           (Run.mk (set_state IDLE (Run.assistant s))
                                   (Run.monitor s)))))
    by (left; reflexivity).
  revert H0. generalize (Run.mk (set_state IDLE (Run.assistant s))
                                (Run.monitor s)).
  induction ks as [|k ks IH]; intros s0 H0; simpl; [exact H0|].
  pose proof (iteration_ends_resting k s0 H0) as H1.
  destruct (Run.iteration k s0) as [[s1 tr] crashed]. simpl in H1.
  specialize (IH s1 H1). destruct (Run.iterations ks s1) as [s2 tr2].
  exact IH.
Qed.

(** X19.  Over any run of iterations the crash counter of the health monitor
    grows by the number of iterations that raised; an iteration that
    succeeds does not reset it. *)
Theorem crash_counter_counts_crashes (ks : list Run.Tick) (s : Run.t) :
  HealthMonitor._crash_count (Run.monitor (fst (Run.iterations ks s)))
  = HealthMonitor._crash_count (Run.monitor s) + Run.crashes ks s
  /\ 0 <= Run.crashes ks s.
Proof.
  revert s. induction ks as [|k ks IH]; intros s; simpl; [lia|].
  assert (H : HealthMonitor._crash_count
                (Run.monitor (fst (fst (Run.iteration k s))))
              = HealthMonitor._crash_count (Run.monitor s)
                + (if snd (Run.iteration k s) then 1 else 0)).
  { unfold Run.iteration.
    destruct (_process_state (Run.world k) (Run.assistant s))
      as [[[[]|e] va1] tr1].
    - simpl. lia.
    - destruct (_transition IDLE va1) as [[r va2] tr2]. simpl. lia. }
  destruct (Run.iteration k s) as [[s1 tr] crashed]. simpl in H.
  destruct (IH s1) as [IH1 IH2].
  destruct (Run.iterations ks s1) as [s2 tr2]. simpl in *.
  destruct crashed; lia.
Qed.





Lemma accepted (text : string) (confidence : Q) :
  text <> EmptyString -> ~ (confidence < 4 # 10)%Q ->
  (negb (truthy text) || Qlt_bool confidence (4 # 10))%bool = false.
Proof.
  intros Htext Hconf. apply orb_false_iff. split.
  - destruct text; [now contradiction Htext | reflexivity].
  - destruct (Qlt_bool confidence (4 # 10)) eqn:E; [|reflexivity].
    apply Qlt_bool_spec in E. contradiction.
Qed.

(** X22.  When the skill router answers an accepted transcript with a
    response that is not empty, the response is what is spoken, the
    language model is not called, and the router object with its
    conversation history is left as it was, whether or not the narration
    then completes. *)
Theorem skill_turn_leaves_history
        (W : World) (va : t) (audio_bytes : list byte)
        (text : string) (confidence : Q)
        (response : SkillRouter.Response) (evs : list SkillRouter.Event) :
  transcribe W audio_bytes = Ret (text, confidence) ->
  text <> EmptyString ->
  ~ (confidence < 4 # 10)%Q ->
  SkillRouter.route (router_world W) (skills va) text
    (SkillRouter.mkContext confidence) = (Ret (Some response), evs) ->
  falsy (Some response) = false ->
  exists res va' tr,
    _process_speech W audio_bytes va = (res, va', tr)
    /\ llm va' = llm va
    /\ In (Speak (final_text response)) tr
    /\ forall user_message, ~ In (Chat user_message) tr.
Proof.
  intros Htr Htext Hconf Hroute Htruthy.
  unfold _process_speech, bindM, emit, lift.
  rewrite Htr, (accepted _ _ Htext Hconf), notify_ui_run.
  unfold respond, bindM, get, emit, lift, ret.
  rewrite Hroute. cbv beta iota zeta. rewrite Htruthy.
  cbv beta iota zeta. rewrite !transition_run, notify_ui_run.
  cbv beta iota zeta.
  assert (Hskill : forall u, ~ In (Chat u) (map Skill evs)).
  { intros u Hin. apply in_map_iff in Hin. destruct Hin as [? [? _]].
    discriminate. }
  assert (Hui : forall name txt u,
             ~ In (Chat u) (if ui_callback va then [Ui name txt] else [])).
  { intros name txt u Hin. destruct (ui_callback va); simpl in Hin;
      [destruct Hin as [H | []]; discriminate | exact Hin]. }
  cbn [ui_callback set_state state].
  destruct (speak_streaming W (final_text response)) as [[]|e].
  - destruct (if negb (requested_continuation response)
              then _should_continue_listening (final_text response)
              else requested_continuation response);
      rewrite transition_run; cbn [ui_callback set_state state];
      eexists _, _, _;
      (split; [reflexivity|]); (split; [reflexivity|]);
      (split; [rewrite !in_app_iff; cbn [In]; auto 12|]);
      intros u Hin;
      repeat (rewrite in_app_iff in Hin || cbn [In] in Hin);
      intuition (try discriminate; try (eapply Hskill; eassumption);
                 try (eapply Hui; eassumption)).
  - eexists _, _, _.
    (split; [reflexivity|]); (split; [reflexivity|]);
      (split; [rewrite !in_app_iff; cbn [In]; auto 12|]);
      intros u Hin;
      repeat (rewrite in_app_iff in Hin || cbn [In] in Hin);
      intuition (try discriminate; try (eapply Hskill; eassumption);
                 try (eapply Hui; eassumption)).
Qed.

Lemma skill_turn_leaves_history_witness :
  exists res va' tr,
    _process_speech (turn_world "play music" (9 # 10)) []
      (assistant [("music", music)])
    = (res, va', tr)
    /\ llm va' = llm (assistant [("music", music)])
    /\ In (Speak "Which song?") tr
    /\ forall user_message, ~ In (Chat user_message) tr.
Proof.
  apply (skill_turn_leaves_history (turn_world "play music" (9 # 10))
           (assistant [("music", music)]) [] "play music" (9 # 10)
           (SkillRouter.Structured
              (SkillRouter.mkSkillResponse "Which song?" false 10))
           [SkillRouter.Handle "music"]).
  - reflexivity.
  - discriminate.
  - unfold Qlt. simpl. lia.
  - reflexivity.
  - reflexivity.
Defined.



(** X24.  When the response of an accepted transcript requests continuation
    and the narration completes, the session goes from SPEAKING to
    LISTENING whatever the text is. *)
Theorem requested_continuation_keeps_listening
        (W : World) (va : t) (audio_bytes : list byte)
        (text : string) (confidence : Q)
        (response : SkillRouter.Response) (va1 : t) (tr1 : list Event) :
  transcribe W audio_bytes = Ret (text, confidence) ->
  text <> EmptyString ->
  ~ (confidence < 4 # 10)%Q ->
  respond W text confidence va = (Ret response, va1, tr1) ->
  requested_continuation response = true ->
  speak_streaming W (final_text response) = Ret tt ->
  exists va' tr,
    _process_speech W audio_bytes va = (Ret tt, va', tr)
    /\ state va' = LISTENING
    /\ In (Speak (final_text response)) tr
    /\ In (Transition SPEAKING LISTENING) tr.
Proof.
  intros Htr Htext Hconf Hresp Hreq Hspeak.
  unfold _process_speech, bindM, emit, lift.
  rewrite Htr, (accepted _ _ Htext Hconf), notify_ui_run, Hresp, Hreq.
  cbv beta iota zeta. cbn [negb].
  rewrite !transition_run, notify_ui_run, Hspeak.
  cbv beta iota zeta. rewrite transition_run.
  eexists _, _. split; [reflexivity|]. cbn [state set_state].
  split; [reflexivity|].
  split; rewrite !in_app_iff; cbn [In]; auto 12.
Qed.

Lemma requested_continuation_keeps_listening_witness :
  exists va' tr,
    _process_speech (turn_world "start the quiz" (9 # 10)) []
      (assistant [("quiz", quiz)])
    = (Ret tt, va', tr)
    /\ state va' = LISTENING
    /\ In (Speak "Ready when you are.") tr
    /\ In (Transition SPEAKING LISTENING) tr.
Proof.
  apply (requested_continuation_keeps_listening
           (turn_world "start the quiz" (9 # 10))
           (assistant [("quiz", quiz)]) [] "start the quiz" (9 # 10)
           (SkillRouter.Structured
              (SkillRouter.with_followup "Ready when you are." 10))
           (assistant [("quiz", quiz)])
           [Route "start the quiz" (SkillRouter.mkContext (9 # 10));
            Skill (SkillRouter.Handle "quiz")]).
  - reflexivity.
  - discriminate.
  - unfold Qlt. simpl. lia.
  - reflexivity.
  - reflexivity.
  - reflexivity.
Defined.

End SessionBehaviour.

(* ================================================================== *)
(** ** The audio queue and the health monitor *)

Section Collaborators.

Lemma callbacks_while_recording blocks queue stream :
  AudioManager.callbacks blocks (AudioManager.mk queue true stream)
  = AudioManager.mk (queue ++ blocks) true stream.
Proof.
  unfold AudioManager.callbacks. revert queue.
  induction blocks as [|b blocks IH]; intros queue; cbn [fold_left].
  - now rewrite app_nil_r.
  - change (AudioManager._audio_callback b
              (AudioManager.mk queue true stream))
      with (AudioManager.mk (queue ++ [b]) true stream).
    rewrite IH. now rewrite <- app_assoc.
Qed.

Lemma drain_step n a :
  AudioManager.drain (S n) a
  = let '(c, a1) := AudioManager.get_audio_chunk a in
    let '(cs, a2) := AudioManager.drain n a1 in
    (c :: cs, a2).
Proof. reflexivity. Qed.

Lemma drain_queue queue recording stream :
  AudioManager.drain (S (List.length queue))
    (AudioManager.mk queue recording stream)
  = (map Some queue ++ [None], AudioManager.mk [] recording stream).
Proof.
  induction queue as [|c queue IH]; [reflexivity|].
  cbn [List.length]. rewrite drain_step.
  unfold AudioManager.get_audio_chunk.
  cbn [AudioManager.audio_queue AudioManager.is_recording
       AudioManager._stream].
  rewrite IH. reflexivity.
Qed.

(** X25.  [start_recording] discards what the queue held; the blocks the
    device delivers afterwards come out of [get_audio_chunk] one by one in
    the order of delivery, followed by [None] once the queue is empty; and
    blocks delivered after [stop_recording] are dropped. *)
Theorem audio_queue_is_fifo
        (a : AudioManager.t) (stale blocks : list (list byte)) :
  AudioManager.drain (S (List.length blocks))
    (AudioManager.callbacks blocks
       (AudioManager.start_recording
          (AudioManager.callbacks stale a)))
  = (map Some blocks ++ [None],
     AudioManager.mk [] true (AudioManager._stream a))
  /\ AudioManager.callbacks blocks (AudioManager.stop_recording a)
     = AudioManager.stop_recording a.
Proof.
  split.
  - unfold AudioManager.start_recording.
    assert (Hs : AudioManager._stream (AudioManager.callbacks stale a)
                 = AudioManager._stream a).
    { unfold AudioManager.callbacks. revert a.
      induction stale as [|b stale IH]; intros a; [reflexivity|].
      cbn [fold_left]. rewrite IH. unfold AudioManager._audio_callback.
      destruct (AudioManager.is_recording a); reflexivity. }
    rewrite Hs, callbacks_while_recording. simpl app.
    apply drain_queue.
  - unfold AudioManager.stop_recording, AudioManager.callbacks.
    induction blocks as [|b blocks IH]; [reflexivity|].
    cbn [fold_left]. exact IH.
Qed.

(** X26.  Each [log_crash] raises the crash count by one, and a call sleeps
    for the backoff exactly when the count it reaches exceeds five: from
    the sixth crash on, every crash is followed by the pause. *)
Theorem backoff_from_sixth_crash (n : nat) (m : HealthMonitor.t) :
  HealthMonitor._crash_count (fst (HealthMonitor.log_crashes n m))
  = HealthMonitor._crash_count m + Z.of_nat n
  /\ snd (HealthMonitor.log_crashes n m)
     = map (fun k => 5 <? HealthMonitor._crash_count m + Z.of_nat k + 1)
           (seq 0 n).
Proof.
  revert m. induction n as [|n IH]; intros m.
  - simpl. split; [lia | reflexivity].
  - cbn [HealthMonitor.log_crashes].
    destruct (HealthMonitor.log_crash m) as [m1 slept] eqn:E.
    unfold HealthMonitor.log_crash in E. injection E as <- <-.
    destruct (IH (HealthMonitor.mk (HealthMonitor.check_interval m)
                    (HealthMonitor.timeout m)
                    (HealthMonitor.last_heartbeat m)
                    (HealthMonitor.running m)
                    (HealthMonitor._crash_count m + 1))) as [IH1 IH2].
    destruct (HealthMonitor.log_crashes n _) as [m2 rest].
    cbn [fst snd] in *. cbn [HealthMonitor._crash_count] in IH1, IH2.
    split; [lia|].
    cbn [seq map]. rewrite Z.add_0_r. f_equal.
    rewrite IH2, <- seq_shift, map_map. apply map_ext. intros k.
    f_equal. lia.
Qed.

End Collaborators.
